(** * ZMK device-tree binding headers

    The headers under [dt-bindings/zmk/] consist of object-like
    [#define NAME literal] directives (key, modifier, mouse and behavior
    codes, timing defaults) and of five function-like macros that pack a
    matrix position into one integer and unpack it again
    ([RC], [MATRIX_ROW], [MATRIX_COL], [GET_ROW], [GET_COL]).

    Two views of the macros are given.

    - A shallow one: each macro is the Rocq function computed by its
      replacement text.  The macros carry no type; the including
      program gives the operands one.  [MatrixTransformAt] is the
      computation at an operand type [ty] (its width, signed or not):
      a left shift that does not fit wraps on unsigned operands and
      has no defined result on signed ones.  [MatrixTransform] is the
      computation on unbounded integers, which is what every operand
      type computes as long as the shifted row fits it
      ([RC_exact_when_fits]).
    - A syntactic one: the replacement text as an expression tree over
      the macro's parameters, expansion as substitution, and evaluation in
      a store that expressions of the language may read and write.  It
      is what statements about side effects are made on.  The evaluator
      computes on unbounded integers and takes operands left to right:
      its values are those of an operand type while they fit, and the
      order shows only when an argument assigns an object another one
      uses. *)

From Stdlib Require Import ZArith List Ascii String Lia Bool.
Import ListNotations.

Local Open Scope string_scope.
Local Open Scope Z_scope.
Local Open Scope list_scope.

(** ** Object-like macros: tables of [#define NAME literal] *)

(** A block of directives, in source order. *)
Definition table : Type := list (string * Z).

(** The value a name is defined to, if any (first directive wins; the
    headers define no name twice, see [names_distinct] below). *)
Fixpoint lookup (name : string) (t : table) : option Z :=
  match t with
  | [] => None
  | (n, v) :: t' => if String.eqb name n then Some v else lookup name t'
  end.

Definition names (t : table) : list string := map fst t.
Definition values (t : table) : list Z := map snd t.

(** Every value of the block lies in [[lo, hi]]. *)
Definition all_within (lo hi : Z) (t : table) : bool :=
  forallb (fun v => (lo <=? v) && (v <=? hi)) (values t).

(** A macro name must be an identifier: a letter or an underscore,
    followed by letters, digits and underscores.  A directive whose
    name is not one is rejected with an error and defines nothing. *)
Definition is_letter (c : ascii) : bool :=
  let n := nat_of_ascii c in
  ((65 <=? n) && (n <=? 90) || (97 <=? n) && (n <=? 122) || (n =? 95))%nat.

Definition is_digit (c : ascii) : bool :=
  let n := nat_of_ascii c in ((48 <=? n) && (n <=? 57))%nat.

Fixpoint identifier_tail (s : string) : bool :=
  match s with
  | EmptyString => true
  | String c s' => (is_letter c || is_digit c) && identifier_tail s'
  end.

Definition is_identifier (s : string) : bool :=
  match s with
  | EmptyString => false
  | String c s' => is_letter c && identifier_tail s'
  end.

(** The directives of a block that the preprocessor accepts. *)
Definition accepted (directives : table) : table :=
  filter (fun d => is_identifier (fst d)) directives.

(** *** converter/dts/include/dt-bindings/zmk/keys.h *)
Module Keys.

Definition KC_A : Z := 0x04.
Definition KC_B : Z := 0x05.
Definition KC_C : Z := 0x06.
Definition KC_D : Z := 0x07.
Definition KC_E : Z := 0x08.
Definition KC_F : Z := 0x09.
Definition KC_G : Z := 0x0A.
Definition KC_H : Z := 0x0B.
Definition KC_I : Z := 0x0C.
Definition KC_J : Z := 0x0D.
Definition KC_K : Z := 0x0E.
Definition KC_L : Z := 0x0F.
Definition KC_M : Z := 0x10.
Definition KC_N : Z := 0x11.
Definition KC_O : Z := 0x12.
Definition KC_P : Z := 0x13.
Definition KC_Q : Z := 0x14.
Definition KC_R : Z := 0x15.
Definition KC_S : Z := 0x16.
Definition KC_T : Z := 0x17.
Definition KC_U : Z := 0x18.
Definition KC_V : Z := 0x19.
Definition KC_W : Z := 0x1A.
Definition KC_X : Z := 0x1B.
Definition KC_Y : Z := 0x1C.
Definition KC_Z : Z := 0x1D.

Definition letters : table :=
  [ ("KC_A", KC_A); ("KC_B", KC_B); ("KC_C", KC_C); ("KC_D", KC_D);
    ("KC_E", KC_E); ("KC_F", KC_F); ("KC_G", KC_G); ("KC_H", KC_H);
    ("KC_I", KC_I); ("KC_J", KC_J); ("KC_K", KC_K); ("KC_L", KC_L);
    ("KC_M", KC_M); ("KC_N", KC_N); ("KC_O", KC_O); ("KC_P", KC_P);
    ("KC_Q", KC_Q); ("KC_R", KC_R); ("KC_S", KC_S); ("KC_T", KC_T);
    ("KC_U", KC_U); ("KC_V", KC_V); ("KC_W", KC_W); ("KC_X", KC_X);
    ("KC_Y", KC_Y); ("KC_Z", KC_Z) ].

(* Modifiers *)
Definition KC_LCTRL : Z := 0xE0.
Definition KC_LSHIFT : Z := 0xE1.
Definition KC_LALT : Z := 0xE2.
Definition KC_LGUI : Z := 0xE3.
Definition KC_RCTRL : Z := 0xE4.
Definition KC_RSHIFT : Z := 0xE5.
Definition KC_RALT : Z := 0xE6.
Definition KC_RGUI : Z := 0xE7.

Definition modifiers : table :=
  [ ("KC_LCTRL", KC_LCTRL); ("KC_LSHIFT", KC_LSHIFT);
    ("KC_LALT", KC_LALT); ("KC_LGUI", KC_LGUI);
    ("KC_RCTRL", KC_RCTRL); ("KC_RSHIFT", KC_RSHIFT);
    ("KC_RALT", KC_RALT); ("KC_RGUI", KC_RGUI) ].

(* Function keys *)
Definition KC_F1 : Z := 0x3A.
Definition KC_F2 : Z := 0x3B.
Definition KC_F3 : Z := 0x3C.
Definition KC_F4 : Z := 0x3D.
Definition KC_F5 : Z := 0x3E.
Definition KC_F6 : Z := 0x3F.
Definition KC_F7 : Z := 0x40.
Definition KC_F8 : Z := 0x41.
Definition KC_F9 : Z := 0x42.
Definition KC_F10 : Z := 0x43.
Definition KC_F11 : Z := 0x44.
Definition KC_F12 : Z := 0x45.

Definition function_keys : table :=
  [ ("KC_F1", KC_F1); ("KC_F2", KC_F2); ("KC_F3", KC_F3);
    ("KC_F4", KC_F4); ("KC_F5", KC_F5); ("KC_F6", KC_F6);
    ("KC_F7", KC_F7); ("KC_F8", KC_F8); ("KC_F9", KC_F9);
    ("KC_F10", KC_F10); ("KC_F11", KC_F11); ("KC_F12", KC_F12) ].

(* Other keys *)
Definition KC_ENTER : Z := 0x28.
Definition KC_ESC : Z := 0x29.
Definition KC_BSPC : Z := 0x2A.
Definition KC_TAB : Z := 0x2B.
Definition KC_SPC : Z := 0x2C.
Definition KC_MINUS : Z := 0x2D.
Definition KC_EQUAL : Z := 0x2E.
Definition KC_LBKT : Z := 0x2F.
Definition KC_RBKT : Z := 0x30.
Definition KC_BSLASH : Z := 0x31.
Definition KC_SEMI : Z := 0x33.
Definition KC_QUOTE : Z := 0x34.
Definition KC_GRAVE : Z := 0x35.
Definition KC_COMMA : Z := 0x36.
Definition KC_DOT : Z := 0x37.
Definition KC_SLASH : Z := 0x38.
Definition KC_CAPS : Z := 0x39.

Definition other_keys : table :=
  [ ("KC_ENTER", KC_ENTER); ("KC_ESC", KC_ESC); ("KC_BSPC", KC_BSPC);
    ("KC_TAB", KC_TAB); ("KC_SPC", KC_SPC); ("KC_MINUS", KC_MINUS);
    ("KC_EQUAL", KC_EQUAL); ("KC_LBKT", KC_LBKT); ("KC_RBKT", KC_RBKT);
    ("KC_BSLASH", KC_BSLASH); ("KC_SEMI", KC_SEMI);
    ("KC_QUOTE", KC_QUOTE); ("KC_GRAVE", KC_GRAVE);
    ("KC_COMMA", KC_COMMA); ("KC_DOT", KC_DOT); ("KC_SLASH", KC_SLASH);
    ("KC_CAPS", KC_CAPS) ].

(* Number row *)
Definition KC_1 : Z := 0x1E.
Definition KC_2 : Z := 0x1F.
Definition KC_3 : Z := 0x20.
Definition KC_4 : Z := 0x21.
Definition KC_5 : Z := 0x22.
Definition KC_6 : Z := 0x23.
Definition KC_7 : Z := 0x24.
Definition KC_8 : Z := 0x25.
Definition KC_9 : Z := 0x26.
Definition KC_0 : Z := 0x27.

Definition number_row : table :=
  [ ("KC_1", KC_1); ("KC_2", KC_2); ("KC_3", KC_3); ("KC_4", KC_4);
    ("KC_5", KC_5); ("KC_6", KC_6); ("KC_7", KC_7); ("KC_8", KC_8);
    ("KC_9", KC_9); ("KC_0", KC_0) ].

(* Navigation cluster *)
Definition KC_INSERT : Z := 0x49.
Definition KC_HOME : Z := 0x4A.
Definition KC_PGUP : Z := 0x4B.
Definition KC_DELETE : Z := 0x4C.
Definition KC_END : Z := 0x4D.
Definition KC_PGDN : Z := 0x4E.
Definition KC_RIGHT : Z := 0x4F.
Definition KC_LEFT : Z := 0x50.
Definition KC_DOWN : Z := 0x51.
Definition KC_UP : Z := 0x52.

Definition navigation : table :=
  [ ("KC_INSERT", KC_INSERT); ("KC_HOME", KC_HOME); ("KC_PGUP", KC_PGUP);
    ("KC_DELETE", KC_DELETE); ("KC_END", KC_END); ("KC_PGDN", KC_PGDN);
    ("KC_RIGHT", KC_RIGHT); ("KC_LEFT", KC_LEFT); ("KC_DOWN", KC_DOWN);
    ("KC_UP", KC_UP) ].

(** The whole header, in source order. *)
Definition defines : table :=
  letters ++ modifiers ++ function_keys ++ other_keys ++ number_row
    ++ navigation.

End Keys.

(** *** converter/dts/include/dt-bindings/zmk/mouse.h *)
Module Mouse.

Definition LCLK : Z := 0x01.
Definition RCLK : Z := 0x02.
Definition MCLK : Z := 0x03.
Definition MOVE_UP : Z := 0x04.
Definition MOVE_DOWN : Z := 0x05.
Definition MOVE_LEFT : Z := 0x06.
Definition MOVE_RIGHT : Z := 0x07.
Definition SCROLL_UP : Z := 0x08.
Definition SCROLL_DOWN : Z := 0x09.
Definition SCROLL_LEFT : Z := 0x0A.
Definition SCROLL_RIGHT : Z := 0x0B.

Definition defines : table :=
  [ ("LCLK", LCLK); ("RCLK", RCLK); ("MCLK", MCLK);
    ("MOVE_UP", MOVE_UP); ("MOVE_DOWN", MOVE_DOWN);
    ("MOVE_LEFT", MOVE_LEFT); ("MOVE_RIGHT", MOVE_RIGHT);
    ("SCROLL_UP", SCROLL_UP); ("SCROLL_DOWN", SCROLL_DOWN);
    ("SCROLL_LEFT", SCROLL_LEFT); ("SCROLL_RIGHT", SCROLL_RIGHT) ].

End Mouse.

(** *** converter/dts/include/dt-bindings/zmk/behaviors.h *)
Module Behaviors.

(* Basic behaviors, as written.  The names start with [&] and are no
   identifiers: the preprocessor rejects these nine directives, see
   [defines]. *)
Definition basic : table :=
  [ ("&kp", 0x01); ("&mt", 0x02); ("&lt", 0x03); ("&mo", 0x04);
    ("&to", 0x05); ("&tog", 0x06); ("&sk", 0x07); ("&trans", 0x08);
    ("&macro", 0x09) ].

(* Hold-tap configuration *)
Definition HOLD_TAP_FLAVOR_HOLD_PREFERRED : Z := 0.
Definition HOLD_TAP_FLAVOR_BALANCED : Z := 1.
Definition HOLD_TAP_FLAVOR_TAP_PREFERRED : Z := 2.
Definition HOLD_TAP_FLAVOR_TAP_UNLESS_INTERRUPTED : Z := 3.

Definition hold_tap_flavors : table :=
  [ ("HOLD_TAP_FLAVOR_HOLD_PREFERRED", HOLD_TAP_FLAVOR_HOLD_PREFERRED);
    ("HOLD_TAP_FLAVOR_BALANCED", HOLD_TAP_FLAVOR_BALANCED);
    ("HOLD_TAP_FLAVOR_TAP_PREFERRED", HOLD_TAP_FLAVOR_TAP_PREFERRED);
    ("HOLD_TAP_FLAVOR_TAP_UNLESS_INTERRUPTED",
      HOLD_TAP_FLAVOR_TAP_UNLESS_INTERRUPTED) ].

(* Timing parameters *)
Definition TAPPING_TERM_MS : Z := 200.
Definition QUICK_TAP_MS : Z := 125.
Definition GLOBAL_QUICK_TAP_MS : Z := 150.

Definition timing : table :=
  [ ("TAPPING_TERM_MS", TAPPING_TERM_MS);
    ("QUICK_TAP_MS", QUICK_TAP_MS);
    ("GLOBAL_QUICK_TAP_MS", GLOBAL_QUICK_TAP_MS) ].

(* Layer behavior parameters *)
Definition DEFAULT_LAYER : Z := 0.
Definition MOMENTARY_LAYER : Z := 1.
Definition TOGGLE_LAYER : Z := 2.

Definition layer_behaviors : table :=
  [ ("DEFAULT_LAYER", DEFAULT_LAYER);
    ("MOMENTARY_LAYER", MOMENTARY_LAYER);
    ("TOGGLE_LAYER", TOGGLE_LAYER) ].

(** The header as written, in source order. *)
Definition directives : table :=
  basic ++ hold_tap_flavors ++ timing ++ layer_behaviors.

(** What the header defines. *)
Definition defines : table := accepted directives.

End Behaviors.

(** What the three converter headers define, in the order keys.h,
    mouse.h, behaviors.h. *)
Definition converter_headers : table :=
  Keys.defines ++ Mouse.defines ++ Behaviors.defines.

(** *** tests/fixtures/dts/include/dt-bindings/zmk/keys.h

    The fixture defines short names through other names ([#define A KP_A],
    [#define KP_A 0x04]), so a replacement is a literal, another
    identifier, or nothing (the include guard).  Its one function-like
    macro, [kp(x)], produces the tokens [&kp x] and no integer; it is not
    part of the table. *)
Module Fixture.

Inductive replacement : Type :=
| Literal (n : Z)
| Ident (x : string)
| Empty.

Definition defines : list (string * replacement) :=
  [ ("ZMK_KEYS_H", Empty);
    (* Basic letter keys *)
    ("A", Ident "KP_A"); ("B", Ident "KP_B"); ("C", Ident "KP_C");
    ("D", Ident "KP_D"); ("E", Ident "KP_E"); ("F", Ident "KP_F");
    (* Key codes *)
    ("KP_A", Literal 0x04); ("KP_B", Literal 0x05);
    ("KP_C", Literal 0x06); ("KP_D", Literal 0x07);
    ("KP_E", Literal 0x08); ("KP_F", Literal 0x09) ].

Fixpoint replacement_of (name : string)
    (t : list (string * replacement)) : option replacement :=
  match t with
  | [] => None
  | (n, r) :: t' =>
      if String.eqb name n then Some r else replacement_of name t'
  end.

(** Rescanning: a replacement that is an identifier is looked up
    again.  A name is never expanded inside its own expansion, so
    the number of directives bounds the number of steps. *)
Fixpoint resolve (fuel : nat) (name : string) : option Z :=
  match fuel with
  | O => None
  | S fuel' =>
      match replacement_of name defines with
      | Some (Literal n) => Some n
      | Some (Ident x) => resolve fuel' x
      | Some Empty | None => None
      end
  end.

Definition value_of (name : string) : option Z :=
  resolve (List.length defines) name.

End Fixture.

(** ** Function-like macros *)

(** *** Operand types

    The operators of the macros at an integer type of the including
    program, after the integer promotions: [bits] is its width. *)
Module CInt.

Record ctype : Type := CType { bits : Z; signed : bool }.

Definition int32 : ctype := CType 32 true.
Definition uint32 : ctype := CType 32 false.
Definition uint64 : ctype := CType 64 false.

Definition max_value (ty : ctype) : Z :=
  if signed ty then 2 ^ (bits ty - 1) - 1 else 2 ^ bits ty - 1.

Definition min_value (ty : ctype) : Z :=
  if signed ty then - 2 ^ (bits ty - 1) else 0.

(** A shift count must be non-negative and below the width. *)
Definition count_ok (ty : ctype) (n : Z) : bool :=
  (0 <=? n) && (n <? bits ty).

(** [a << n].  Unsigned: [a * 2 ^ n] reduced modulo [2 ^ bits].
    Signed: [a * 2 ^ n] if [a] is non-negative and the product is
    representable, undefined otherwise. *)
Definition shl (ty : ctype) (a n : Z) : option Z :=
  if count_ok ty n then
    if signed ty then
      if (0 <=? a) && (a * 2 ^ n <=? max_value ty)
      then Some (a * 2 ^ n) else None
    else Some ((a * 2 ^ n) mod 2 ^ bits ty)
  else None.

(** [a >> n]: the quotient of [a] by [2 ^ n], rounded down (for a
    negative signed [a] the language leaves the result to the
    implementation; this is the arithmetic shift). *)
Definition shr (ty : ctype) (a n : Z) : option Z :=
  if count_ok ty n then Some (Z.shiftr a n) else None.

End CInt.

(** Sequencing of computations that may have no result. *)
Definition and_then {A B : Type} (o : option A) (f : A -> option B)
    : option B :=
  match o with
  | Some a => f a
  | None => None
  end.

(** *** The macros at an operand type:
    converter/dts/include/dt-bindings/zmk/matrix_transform.h *)
Module MatrixTransformAt.

(* #define RC(row, col) ((row) << 8 | (col)) *)
Definition RC (ty : CInt.ctype) (row col : Z) : option Z :=
  and_then (CInt.shl ty row 8) (fun r => Some (Z.lor r col)).

(* #define MATRIX_ROW(row) ((row) << 8) *)
Definition MATRIX_ROW (ty : CInt.ctype) (row : Z) : option Z :=
  CInt.shl ty row 8.

(* #define MATRIX_COL(col) (col) *)
Definition MATRIX_COL (ty : CInt.ctype) (col : Z) : option Z := Some col.

(* #define GET_ROW(matrix_index) ((matrix_index) >> 8) *)
Definition GET_ROW (ty : CInt.ctype) (matrix_index : Z) : option Z :=
  CInt.shr ty matrix_index 8.

(* #define GET_COL(matrix_index) ((matrix_index) & 0xFF) *)
Definition GET_COL (ty : CInt.ctype) (matrix_index : Z) : option Z :=
  Some (Z.land matrix_index 0xFF).

End MatrixTransformAt.

(** *** The macros on unbounded integers:
    converter/dts/include/dt-bindings/zmk/matrix_transform.h

    The value every operand type computes while the shifted row fits
    it. *)
Module MatrixTransform.

(* #define RC(row, col) ((row) << 8 | (col))
   [<<] binds tighter than [|]. *)
Definition RC (row col : Z) : Z := Z.lor (Z.shiftl row 8) col.

(* #define MATRIX_ROW(row) ((row) << 8) *)
Definition MATRIX_ROW (row : Z) : Z := Z.shiftl row 8.

(* #define MATRIX_COL(col) (col) *)
Definition MATRIX_COL (col : Z) : Z := col.

(* #define GET_ROW(matrix_index) ((matrix_index) >> 8) *)
Definition GET_ROW (matrix_index : Z) : Z := Z.shiftr matrix_index 8.

(* #define GET_COL(matrix_index) ((matrix_index) & 0xFF) *)
Definition GET_COL (matrix_index : Z) : Z := Z.land matrix_index 0xFF.

End MatrixTransform.

(** *** Syntactic view: integer expressions, stores, expansion *)
Module Expr.

Inductive expr : Type :=
| Num (n : Z)                      (* integer constant *)
| Param (p : string)               (* macro parameter *)
| Var (x : string)                 (* object of the including program *)
| Assign (x : string) (e : expr)   (* x = e *)
| Paren (e : expr)                 (* ( e ) *)
| Shl (a b : expr)                 (* a << b *)
| Shr (a b : expr)                 (* a >> b *)
| BitAnd (a b : expr)              (* a & b *)
| BitOr (a b : expr).              (* a | b *)

Definition store : Type := string -> option Z.

Definition update (s : store) (x : string) (v : Z) : store :=
  fun y => if String.eqb y x then Some v else s y.

(** State and failure. *)
Definition M (A : Type) : Type := store -> option (A * store).

Definition ret {A} (a : A) : M A := fun s => Some (a, s).
Definition fail {A} : M A := fun _ => None.
Definition bind {A B} (m : M A) (k : A -> M B) : M B :=
  fun s => match m s with
           | Some (a, s') => k a s'
           | None => None
           end.

Notation "x <- m ;; k" := (bind m (fun x => k))
  (at level 61, m at next level, right associativity).

Definition read (x : string) : M Z :=
  fun s => match s x with
           | Some v => Some (v, s)
           | None => None
           end.

Definition write (x : string) (v : Z) : M Z :=
  fun s => Some (v, update s x v).

(** A shift by a negative count has no defined result.  The shifted
    value is the unbounded one, which an operand type computes while it
    fits ([CInt.shl]). *)
Definition shift (op : Z -> Z -> Z) (a n : Z) : M Z :=
  if n <? 0 then fail else ret (op a n).

(** Operands are evaluated left to right; the language leaves the
    order open, which shows only when one operand assigns an object
    the other one uses.  A parameter that survived expansion has no
    value. *)
Fixpoint eval (e : expr) : M Z :=
  match e with
  | Num n => ret n
  | Param _ => fail
  | Var x => read x
  | Assign x e1 => v <- eval e1 ;; write x v
  | Paren e1 => eval e1
  | Shl a b => va <- eval a ;; vb <- eval b ;; shift Z.shiftl va vb
  | Shr a b => va <- eval a ;; vb <- eval b ;; shift Z.shiftr va vb
  | BitAnd a b => va <- eval a ;; vb <- eval b ;; ret (Z.land va vb)
  | BitOr a b => va <- eval a ;; vb <- eval b ;; ret (Z.lor va vb)
  end.

(** [#define name(params) body] *)
Record macro : Type := Macro { params : list string; body : expr }.

Fixpoint argument (p : string) (bound : list (string * expr))
    : option expr :=
  match bound with
  | [] => None
  | (q, a) :: bound' =>
      if String.eqb p q then Some a else argument p bound'
  end.

(** Replace each parameter of the body by its argument; arguments are
    not rescanned for parameters. *)
Fixpoint subst (bound : list (string * expr)) (e : expr) : expr :=
  match e with
  | Num n => Num n
  | Param p => match argument p bound with
               | Some a => a
               | None => Param p
               end
  | Var x => Var x
  | Assign x e1 => Assign x (subst bound e1)
  | Paren e1 => Paren (subst bound e1)
  | Shl a b => Shl (subst bound a) (subst bound b)
  | Shr a b => Shr (subst bound a) (subst bound b)
  | BitAnd a b => BitAnd (subst bound a) (subst bound b)
  | BitOr a b => BitOr (subst bound a) (subst bound b)
  end.

(** An invocation with the wrong number of arguments does not expand. *)
Definition expand (m : macro) (args : list expr) : option expr :=
  if Nat.eqb (List.length (params m)) (List.length args)
  then Some (subst (combine (params m) args) (body m))
  else None.

Definition call (m : macro) (args : list expr) : M Z :=
  match expand m args with
  | Some e => eval e
  | None => fail
  end.

(** The expression has a value, and evaluating it neither depends on
    the store nor changes it. *)
Definition stateless (c : M Z) (v : Z) : Prop :=
  forall s : store, c s = Some (v, s).

(** Number of places a parameter is used at. *)
Fixpoint uses (p : string) (e : expr) : nat :=
  match e with
  | Num _ | Var _ => 0
  | Param q => if String.eqb p q then 1 else 0
  | Assign _ e1 | Paren e1 => uses p e1
  | Shl a b | Shr a b | BitAnd a b | BitOr a b =>
      (uses p a + uses p b)%nat
  end.

(** Integer constant expressions: no parameter, no object, no
    assignment. *)
Fixpoint constant (e : expr) : bool :=
  match e with
  | Num _ => true
  | Param _ | Var _ | Assign _ _ => false
  | Paren e1 => constant e1
  | Shl a b | Shr a b | BitAnd a b | BitOr a b => constant a && constant b
  end.

(** Replacement texts over the parameters [ps] that name no object and
    assign nothing. *)
Fixpoint template (ps : list string) (e : expr) : bool :=
  match e with
  | Num _ => true
  | Param p => existsb (String.eqb p) ps
  | Var _ | Assign _ _ => false
  | Paren e1 => template ps e1
  | Shl a b | Shr a b | BitAnd a b | BitOr a b =>
      template ps a && template ps b
  end.

(** The objects an expression reads and assigns, in the order of the
    text, and the parameters a replacement text mentions. *)
Inductive access : Type :=
| Reads (x : string)
| Assigns (x : string).

Fixpoint accesses (e : expr) : list access :=
  match e with
  | Num _ | Param _ => []
  | Var x => [Reads x]
  | Assign x e1 => accesses e1 ++ [Assigns x]
  | Paren e1 => accesses e1
  | Shl a b | Shr a b | BitAnd a b | BitOr a b => accesses a ++ accesses b
  end.

Fixpoint occurrences (e : expr) : list string :=
  match e with
  | Num _ | Var _ => []
  | Param p => [p]
  | Assign _ e1 | Paren e1 => occurrences e1
  | Shl a b | Shr a b | BitAnd a b | BitOr a b =>
      occurrences a ++ occurrences b
  end.

(** The same outcome in two stores, neither of them changed. *)
Definition store_independent (c : M Z) : Prop :=
  forall s s' : store,
    match c s with
    | Some (v, t) => t = s /\ c s' = Some (v, s')
    | None => c s' = None
    end.

End Expr.

(** *** The replacement texts of matrix_transform.h *)
Module MatrixTransformSyntax.
Import Expr.

(* #define RC(row, col) ((row) << 8 | (col)) *)
Definition RC : macro :=
  Macro ["row"; "col"]
    (Paren (BitOr (Shl (Paren (Param "row")) (Num 8))
                  (Paren (Param "col")))).

(* #define MATRIX_ROW(row) ((row) << 8) *)
Definition MATRIX_ROW : macro :=
  Macro ["row"] (Paren (Shl (Paren (Param "row")) (Num 8))).

(* #define MATRIX_COL(col) (col) *)
Definition MATRIX_COL : macro :=
  Macro ["col"] (Paren (Param "col")).

(* #define GET_ROW(matrix_index) ((matrix_index) >> 8) *)
Definition GET_ROW : macro :=
  Macro ["matrix_index"]
    (Paren (Shr (Paren (Param "matrix_index")) (Num 8))).

(* #define GET_COL(matrix_index) ((matrix_index) & 0xFF) *)
Definition GET_COL : macro :=
  Macro ["matrix_index"]
    (Paren (BitAnd (Paren (Param "matrix_index")) (Num 0xFF))).

End MatrixTransformSyntax.

(** Arguments and stores used to exercise the macros. *)
Module Examples.
Import Expr.

Definition no_objects : store := fun _ => None.

(* i = i << 1 | 1 *)
Definition shift_in_one : expr :=
  Assign "i" (BitOr (Shl (Var "i") (Num 1)) (Num 1)).

(* 1 << 1  and  1 | (2) *)
Definition constant_arguments : list expr :=
  [ Shl (Num 1) (Num 1); BitOr (Num 1) (Paren (Num 2)) ].

End Examples.

(** * Properties *)

(** ** The constant tables *)
Section Tables.

Lemma lookup_In (name : string) (t : table) (v : Z) :
  lookup name t = Some v -> In (name, v) t.
Proof.
  induction t as [|[n w] t IH]; simpl; [discriminate|].
  destruct (String.eqb_spec name n) as [->|_].
  - intros [= ->]. now left.
  - intros H. right. now apply IH.
Qed.

Lemma In_lookup (name : string) (t : table) (v : Z) :
  NoDup (names t) -> In (name, v) t -> lookup name t = Some v.
Proof.
  unfold names.
  induction t as [|[n w] t IH]; simpl; [contradiction|].
  intros Hnd Hin. inversion Hnd as [|? ? Hnotin Hnd']; subst.
  destruct Hin as [[= -> ->]|Hin].
  - now rewrite String.eqb_refl.
  - destruct (String.eqb_spec name n) as [->|_]; [|now apply IH].
    exfalso. apply Hnotin. change n with (fst (n, v)). now apply in_map.
Qed.

Lemma all_within_spec (lo hi : Z) (t : table) :
  all_within lo hi t = true <->
  forall name v, In (name, v) t -> lo <= v <= hi.
Proof.
  unfold all_within, values. rewrite forallb_forall. split.
  - intros H name v Hin.
    specialize (H v). rewrite in_map_iff in H.
    assert (Hb : (lo <=? v) && (v <=? hi) = true)
      by (apply H; now exists (name, v)).
    apply andb_true_iff in Hb. lia.
  - intros H v Hin. apply in_map_iff in Hin as [[name w] [<- Hin]].
    specialize (H name w Hin). simpl. apply andb_true_iff. lia.
Qed.

Lemma distinct_by_nodup (l : list string) :
  nodup string_dec l = l -> NoDup l.
Proof. intros <-. apply NoDup_nodup. Qed.

(** No header defines a name twice, so [lookup] loses nothing. *)
Lemma names_distinct :
  NoDup (names Keys.defines) /\ NoDup (names Mouse.defines)
  /\ NoDup (names Behaviors.defines).
Proof. repeat split; apply distinct_by_nodup; vm_compute; reflexivity. Qed.

Lemma modifiers_within : all_within 0xE0 0xE7 Keys.modifiers = true.
Proof. reflexivity. Qed.

Lemma mouse_within : all_within 0x01 0x0B Mouse.defines = true.
Proof. reflexivity. Qed.

(** The key codes other than the modifiers lie between [KC_A] and
    [KC_UP]. *)
Lemma plain_keys_within :
  all_within 0x04 0x52
    (Keys.letters ++ Keys.function_keys ++ Keys.other_keys
       ++ Keys.number_row ++ Keys.navigation) = true.
Proof. reflexivity. Qed.

(** The fixture's short names resolve to the same codes the converter's
    header gives the letters. *)
Lemma fixture_letters_agree :
  Fixture.value_of "A" = lookup "KC_A" Keys.defines
  /\ Fixture.value_of "B" = lookup "KC_B" Keys.defines
  /\ Fixture.value_of "C" = lookup "KC_C" Keys.defines
  /\ Fixture.value_of "D" = lookup "KC_D" Keys.defines
  /\ Fixture.value_of "E" = lookup "KC_E" Keys.defines
  /\ Fixture.value_of "F" = lookup "KC_F" Keys.defines.
Proof. repeat split. Qed.

End Tables.

(** ** The matrix-index codec, shallow view *)
Section Codec.
Import MatrixTransform.

(** Arithmetic reading of the two unpacking macros. *)
Lemma GET_ROW_div (packed : Z) : GET_ROW packed = packed / 256.
Proof. unfold GET_ROW. now rewrite Z.shiftr_div_pow2 by lia. Qed.

Lemma GET_COL_mod (packed : Z) : GET_COL packed = packed mod 256.
Proof.
  unfold GET_COL. change 0xFF with (Z.ones 8).
  now rewrite Z.land_ones by lia.
Qed.

(** Bit [n] of the packed value comes from bit [n - 8] of the row or
    from bit [n] of the column, whatever the column is. *)
Lemma RC_testbit (row col n : Z) :
  Z.testbit (RC row col) n = Z.testbit row (n - 8) || Z.testbit col n.
Proof.
  unfold RC. rewrite Z.lor_spec.
  destruct (Z.neg_nonneg_cases n) as [Hn|Hn].
  - now rewrite !Z.testbit_neg_r by lia.
  - now rewrite Z.shiftl_spec.
Qed.

Lemma small_high_bits (col n : Z) :
  0 <= col < 256 -> 8 <= n -> Z.testbit col n = false.
Proof.
  intros Hc Hn. rewrite <- (Z.mod_small col (2 ^ 8)) by lia.
  apply Z.mod_pow2_bits_high. lia.
Qed.

Lemma row_col_disjoint (row col : Z) :
  0 <= col < 256 -> Z.land (Z.shiftl row 8) col = 0.
Proof.
  intros Hc. apply Z.bits_inj'. intros n Hn.
  rewrite Z.land_spec, Z.shiftl_spec, Z.bits_0 by assumption.
  destruct (Z.lt_ge_cases n 8) as [Hlt|Hge].
  - now rewrite Z.testbit_neg_r by lia.
  - rewrite (small_high_bits col n) by assumption. apply andb_false_r.
Qed.

(** With an 8-bit column the packing is positional. *)
Lemma RC_add (row col : Z) :
  0 <= col < 256 -> RC row col = row * 256 + col.
Proof.
  intros Hc. unfold RC.
  pose proof (Z.add_lor_land (Z.shiftl row 8) col) as H.
  rewrite row_col_disjoint in H by assumption.
  rewrite Z.shiftl_mul_pow2 in H by lia. rewrite Z.shiftl_mul_pow2 by lia.
  change (2 ^ 8) with 256 in *. lia.
Qed.

(** What unpacking returns for an arbitrary row and column: the high
    bits of the column are or-ed into the row, the low 8 bits of the
    column come back. *)
Lemma GET_ROW_RC (row col : Z) :
  GET_ROW (RC row col) = Z.lor row (Z.shiftr col 8).
Proof.
  unfold GET_ROW, RC.
  rewrite Z.shiftr_lor, Z.shiftr_shiftl_l by lia.
  now rewrite Z.sub_diag, Z.shiftl_0_r.
Qed.

Lemma GET_COL_RC (row col : Z) : GET_COL (RC row col) = col mod 256.
Proof.
  rewrite GET_COL_mod. unfold RC.
  rewrite <- (Z.land_ones _ 8) by lia.
  rewrite Z.land_lor_distr_l, !Z.land_ones by lia.
  rewrite Z.shiftl_mul_pow2 by lia.
  now rewrite Z.mod_mul, Z.lor_0_l by lia.
Qed.

Lemma GET_ROW_RC_small (row col : Z) :
  0 <= col < 256 -> GET_ROW (RC row col) = row.
Proof.
  intros Hc. rewrite GET_ROW_RC, Z.shiftr_div_pow2 by lia.
  change (2 ^ 8) with 256.
  now rewrite Z.div_small, Z.lor_0_r by lia.
Qed.

Lemma GET_COL_RC_small (row col : Z) :
  0 <= col < 256 -> GET_COL (RC row col) = col.
Proof. intros Hc. rewrite GET_COL_RC. now apply Z.mod_small. Qed.

Lemma RC_nonneg (row col : Z) : 0 <= row -> 0 <= col -> 0 <= RC row col.
Proof.
  intros Hr Hc. unfold RC. apply Z.lor_nonneg. split; [|assumption].
  now apply Z.shiftl_nonneg.
Qed.

Lemma GET_ROW_nonneg (packed : Z) : 0 <= packed -> 0 <= GET_ROW packed.
Proof. intros H. unfold GET_ROW. now apply Z.shiftr_nonneg. Qed.

Lemma GET_COL_bounds (packed : Z) : 0 <= GET_COL packed <= 255.
Proof.
  rewrite GET_COL_mod.
  pose proof (Z.mod_pos_bound packed 256). lia.
Qed.

(** Positions of a 256 x 256 matrix pack into 16 bits, and distinct
    positions pack to distinct indices. *)
Lemma RC_bounds (row col : Z) :
  0 <= row <= 255 -> 0 <= col <= 255 -> 0 <= RC row col <= 65535.
Proof. intros Hr Hc. rewrite RC_add by lia. lia. Qed.

Lemma RC_injective (row col row' col' : Z) :
  0 <= col < 256 -> 0 <= col' < 256 ->
  RC row col = RC row' col' -> row = row' /\ col = col'.
Proof.
  intros Hc Hc' H. split.
  - rewrite <- (GET_ROW_RC_small row col Hc), H.
    now apply GET_ROW_RC_small.
  - rewrite <- (GET_COL_RC_small row col Hc), H.
    now apply GET_COL_RC_small.
Qed.

(** Packing again what was unpacked gives the index back. *)
Lemma RC_GET (packed : Z) : RC (GET_ROW packed) (GET_COL packed) = packed.
Proof.
  rewrite RC_add by (pose proof (GET_COL_bounds packed); lia).
  rewrite GET_ROW_div, GET_COL_mod.
  pose proof (Z.div_mod packed 256). lia.
Qed.

(** The column's high bits reach the row: with row 0 every column
    above 255 changes the decoded row. *)
Lemma wide_column_corrupts_row_0 (col : Z) :
  255 < col -> GET_ROW (RC 0 col) <> 0.
Proof.
  intros Hc. rewrite GET_ROW_RC, Z.lor_0_l, Z.shiftr_div_pow2 by lia.
  change (2 ^ 8) with 256.
  assert (1 <= col / 256) by (apply Z.div_le_lower_bound; lia). lia.
Qed.

End Codec.

(** ** The matrix-index codec, syntactic view *)
Section Expansion.
Import Expr.

Ltac run_call H1 H2 :=
  unfold call; simpl; unfold bind; rewrite H1;
  cbv [ret shift Z.ltb Z.compare]; try rewrite H2; reflexivity.

(** Each macro evaluates each of its arguments once, left to right,
    and returns what the shallow function computes from their
    values. *)
Lemma call_RC (a b : expr) (va vb : Z) (s s1 s2 : store) :
  eval a s = Some (va, s1) -> eval b s1 = Some (vb, s2) ->
  call MatrixTransformSyntax.RC [a; b] s
  = Some (MatrixTransform.RC va vb, s2).
Proof. intros Ha Hb. run_call Ha Hb. Qed.

Lemma call_MATRIX_ROW (a : expr) (va : Z) (s s1 : store) :
  eval a s = Some (va, s1) ->
  call MatrixTransformSyntax.MATRIX_ROW [a] s
  = Some (MatrixTransform.MATRIX_ROW va, s1).
Proof. intros Ha. run_call Ha Ha. Qed.

Lemma call_MATRIX_COL (a : expr) (va : Z) (s s1 : store) :
  eval a s = Some (va, s1) ->
  call MatrixTransformSyntax.MATRIX_COL [a] s
  = Some (MatrixTransform.MATRIX_COL va, s1).
Proof. intros Ha. run_call Ha Ha. Qed.

Lemma call_GET_ROW (a : expr) (va : Z) (s s1 : store) :
  eval a s = Some (va, s1) ->
  call MatrixTransformSyntax.GET_ROW [a] s
  = Some (MatrixTransform.GET_ROW va, s1).
Proof. intros Ha. run_call Ha Ha. Qed.

Lemma call_GET_COL (a : expr) (va : Z) (s s1 : store) :
  eval a s = Some (va, s1) ->
  call MatrixTransformSyntax.GET_COL [a] s
  = Some (MatrixTransform.GET_COL va, s1).
Proof. intros Ha. run_call Ha Ha. Qed.

(** On integer arguments. *)
Lemma RC_stateless (row col : Z) :
  stateless (call MatrixTransformSyntax.RC [Num row; Num col])
            (MatrixTransform.RC row col).
Proof. intros s. now apply call_RC with (s1 := s). Qed.

Lemma GET_ROW_stateless (packed : Z) :
  stateless (call MatrixTransformSyntax.GET_ROW [Num packed])
            (MatrixTransform.GET_ROW packed).
Proof. intros s. now apply call_GET_ROW. Qed.

Lemma GET_COL_stateless (packed : Z) :
  stateless (call MatrixTransformSyntax.GET_COL [Num packed])
            (MatrixTransform.GET_COL packed).
Proof. intros s. now apply call_GET_COL. Qed.


Lemma stateless_store (c : M Z) (v : Z) (s : store) :
  stateless c v -> option_map snd (c s) = Some s.
Proof. intros H. now rewrite H. Qed.

(** The evaluator does read and write stores: neither a variable nor
    an assignment is stateless. *)
Lemma Var_reads (x : string) (v : Z) : ~ stateless (eval (Var x)) v.
Proof.
  intros H. specialize (H (fun _ => None)). discriminate H.
Qed.

Lemma Assign_writes (x : string) (n v : Z) :
  ~ stateless (eval (Assign x (Num n))) v.
Proof.
  intros H. specialize (H (fun _ => None)).
  cbv [eval bind ret write] in H. injection H as _ Hs.
  apply (f_equal (fun f : store => f x)) in Hs.
  unfold update in Hs. rewrite String.eqb_refl in Hs. discriminate Hs.
Qed.

(** No parameter is duplicated or dropped by a replacement text. *)
Lemma parameters_used_once :
  Forall (fun m => Forall (fun p => uses p (body m) = 1%nat) (params m))
    [ MatrixTransformSyntax.RC; MatrixTransformSyntax.MATRIX_ROW;
      MatrixTransformSyntax.MATRIX_COL; MatrixTransformSyntax.GET_ROW;
      MatrixTransformSyntax.GET_COL ].
Proof. repeat constructor. Qed.

(** An invocation with a missing or an extra argument has no value. *)
Lemma RC_arity (args : list expr) (s : store) :
  List.length args <> 2%nat ->
  call MatrixTransformSyntax.RC args s = None.
Proof.
  intros H. unfold call, expand. simpl.
  destruct args as [|a [|b [|c args]]]; simpl; try reflexivity.
  now contradiction H.
Qed.

(** Store independence goes through the monad's operations. *)
Lemma ret_store_independent (v : Z) : store_independent (ret v).
Proof. intros s s'. now split. Qed.

Lemma fail_store_independent : store_independent fail.
Proof. intros s s'. reflexivity. Qed.

Lemma bind_store_independent (c : M Z) (k : Z -> M Z) :
  store_independent c -> (forall v, store_independent (k v)) ->
  store_independent (bind c k).
Proof.
  intros Hc Hk s s'. unfold bind. specialize (Hc s s').
  destruct (c s) as [[v t]|].
  - destruct Hc as [-> Hc]. rewrite Hc. apply Hk.
  - now rewrite Hc.
Qed.

Lemma shift_store_independent (op : Z -> Z -> Z) (a n : Z) :
  store_independent (shift op a n).
Proof.
  unfold shift. destruct (n <? 0).
  - apply fail_store_independent.
  - apply ret_store_independent.
Qed.

(** An integer constant expression evaluates the same way in every
    store and changes none. *)
Lemma constant_store_independent (e : expr) :
  constant e = true -> store_independent (eval e).
Proof.
  induction e as [n|p|x|x e IH|e IH|a IHa b IHb|a IHa b IHb
                 |a IHa b IHb|a IHa b IHb];
    simpl; intros Hc; try discriminate Hc;
    try (apply andb_true_iff in Hc as [Ha Hb];
         apply bind_store_independent; [now apply IHa | intros va];
         apply bind_store_independent; [now apply IHb | intros vb]).
  - apply ret_store_independent.
  - now apply IH.
  - apply shift_store_independent.
  - apply shift_store_independent.
  - apply ret_store_independent.
  - apply ret_store_independent.
Qed.

Lemma names_combine (ps : list string) (args : list expr) :
  List.length ps = List.length args -> map fst (combine ps args) = ps.
Proof.
  revert args. induction ps as [|p ps IH]; intros [|a args] Hlen;
    simpl in *; try discriminate; [reflexivity|].
  f_equal. apply IH. now injection Hlen.
Qed.

Lemma argument_constant (bound : list (string * expr)) (p : string) :
  existsb (String.eqb p) (map fst bound) = true ->
  Forall (fun qa => constant (snd qa) = true) bound ->
  exists a, argument p bound = Some a /\ constant a = true.
Proof.
  induction bound as [|[q a] bound IH]; simpl; [discriminate|].
  intros Hp Hall. inversion Hall as [|? ? Ha Hall']; subst.
  destruct (String.eqb p q).
  - now exists a.
  - now apply IH.
Qed.

(** Expanding a template over constant arguments gives a constant
    expression. *)
Lemma subst_constant (bound : list (string * expr)) (e : expr) :
  template (map fst bound) e = true ->
  Forall (fun qa => constant (snd qa) = true) bound ->
  constant (subst bound e) = true.
Proof.
  intros Ht Hall.
  induction e as [n|p|x|x e IH|e IH|a IHa b IHb|a IHa b IHb
                 |a IHa b IHb|a IHa b IHb];
    simpl in *; try discriminate Ht; try reflexivity;
    try (apply andb_true_iff in Ht as [Hta Htb];
         now rewrite IHa, IHb).
  - destruct (argument_constant bound p Ht Hall) as [a [-> Ha]].
    exact Ha.
  - now apply IH.
Qed.

Lemma expand_constant (m : macro) (args : list expr) (e : expr) :
  template (params m) (body m) = true ->
  Forall (fun a => constant a = true) args ->
  expand m args = Some e -> constant e = true.
Proof.
  unfold expand. intros Ht Hargs.
  destruct (Nat.eqb_spec (List.length (params m)) (List.length args))
    as [Hlen|_]; [|discriminate].
  intros [= <-]. apply subst_constant.
  - now rewrite names_combine.
  - apply Forall_forall. intros [q a] Hin. simpl.
    apply in_combine_r in Hin.
    now apply (proj1 (Forall_forall _ _) Hargs).
Qed.

(** The five replacement texts are such templates, so an invocation
    on integer constant expressions, literal or compound, is independent
    of the store. *)
Lemma matrix_transform_templates :
  Forall (fun m => template (params m) (body m) = true)
    [ MatrixTransformSyntax.RC; MatrixTransformSyntax.MATRIX_ROW;
      MatrixTransformSyntax.MATRIX_COL; MatrixTransformSyntax.GET_ROW;
      MatrixTransformSyntax.GET_COL ].
Proof. repeat constructor. Qed.

Lemma call_store_independent (m : macro) (args : list expr) :
  template (params m) (body m) = true ->
  Forall (fun a => constant a = true) args ->
  store_independent (call m args).
Proof.
  intros Ht Hargs. unfold call.
  destruct (expand m args) as [e|] eqn:He.
  - apply constant_store_independent.
    now apply (expand_constant m args).
  - intros s s'. reflexivity.
Qed.

End Expansion.

(** ** The codec at an operand type *)
Section OperandTypes.
Import CInt.

Variable ty : ctype.
Hypothesis promoted : 16 <= bits ty.

Lemma count_8_ok : count_ok ty 8 = true.
Proof. unfold count_ok. apply andb_true_iff. lia. Qed.

Lemma max_value_below_width : max_value ty < 2 ^ bits ty.
Proof.
  unfold max_value. destruct (signed ty); [|lia].
  assert (2 ^ (bits ty - 1) <= 2 ^ bits ty)
    by (apply Z.pow_le_mono_r; lia).
  lia.
Qed.

Lemma max_value_large : 32767 <= max_value ty.
Proof.
  unfold max_value.
  assert (2 ^ 15 <= 2 ^ (bits ty - 1)) by (apply Z.pow_le_mono_r; lia).
  assert (2 ^ (bits ty - 1) <= 2 ^ bits ty)
    by (apply Z.pow_le_mono_r; lia).
  change (2 ^ 15) with 32768 in *. destruct (signed ty); lia.
Qed.

(** A shift whose result fits is the unbounded shift, signed or not. *)
Lemma shl_8_fits (row : Z) :
  0 <= row -> row * 256 <= max_value ty ->
  shl ty row 8 = Some (Z.shiftl row 8).
Proof.
  intros Hr Hfit. unfold shl. rewrite count_8_ok.
  rewrite Z.shiftl_mul_pow2 by lia. change (2 ^ 8) with 256.
  destruct (signed ty).
  - replace ((0 <=? row) && (row * 256 <=? max_value ty)) with true;
      [reflexivity|].
    symmetry. apply andb_true_iff. lia.
  - pose proof max_value_below_width. now rewrite Z.mod_small by lia.
Qed.

(** On unsigned operands the shift always has a result, the product
    reduced modulo [2 ^ bits]. *)
Lemma shl_8_unsigned (row : Z) :
  signed ty = false -> shl ty row 8 = Some ((row * 256) mod 2 ^ bits ty).
Proof.
  intros Hu. unfold shl. now rewrite count_8_ok, Hu.
Qed.

(** On signed operands a shift that does not fit has none. *)
Lemma shl_8_signed_overflow (row : Z) :
  signed ty = true -> max_value ty < row * 256 -> shl ty row 8 = None.
Proof.
  intros Hs Hover. unfold shl. rewrite count_8_ok, Hs.
  change (2 ^ 8) with 256.
  replace (row * 256 <=? max_value ty) with false by (symmetry; lia).
  now rewrite andb_false_r.
Qed.

Lemma RC_exact_when_fits (row col : Z) :
  0 <= row -> row * 256 <= max_value ty ->
  MatrixTransformAt.RC ty row col = Some (MatrixTransform.RC row col).
Proof.
  intros Hr Hfit. unfold MatrixTransformAt.RC.
  now rewrite shl_8_fits.
Qed.

Lemma MATRIX_ROW_exact_when_fits (row : Z) :
  0 <= row -> row * 256 <= max_value ty ->
  MatrixTransformAt.MATRIX_ROW ty row
  = Some (MatrixTransform.MATRIX_ROW row).
Proof. intros Hr Hfit. now apply shl_8_fits. Qed.

Lemma GET_ROW_exact (packed : Z) :
  MatrixTransformAt.GET_ROW ty packed
  = Some (MatrixTransform.GET_ROW packed).
Proof.
  unfold MatrixTransformAt.GET_ROW, shr. now rewrite count_8_ok.
Qed.

Lemma GET_COL_exact (packed : Z) :
  MatrixTransformAt.GET_COL ty packed
  = Some (MatrixTransform.GET_COL packed).
Proof. reflexivity. Qed.

End OperandTypes.

(** Or-ing two values below a power of two stays below it, so the
    packed value of representable operands is representable. *)
Lemma lor_below_pow2 (a b k : Z) :
  0 <= k -> 0 <= a < 2 ^ k -> 0 <= b < 2 ^ k -> 0 <= Z.lor a b < 2 ^ k.
Proof.
  intros Hk Ha Hb. split; [apply Z.lor_nonneg; lia|].
  destruct (Z.eq_dec (Z.lor a b) 0) as [->|Hne]; [lia|].
  assert (Hpos : 0 < Z.lor a b)
    by (pose proof (proj2 (Z.lor_nonneg a b) (conj (proj1 Ha) (proj1 Hb)));
        lia).
  assert (Hkpos : 0 < k).
  { destruct (Z.eq_dec k 0) as [->|]; [|lia].
    change (2 ^ 0) with 1 in *.
    replace a with 0 in Hne by lia. replace b with 0 in Hne by lia.
    now contradiction Hne. }
  apply Z.log2_lt_pow2; [exact Hpos|].
  rewrite Z.log2_lor by lia.
  apply Z.max_lub_lt.
  - destruct (Z.eq_dec a 0) as [->|Hna]; [simpl; lia|].
    apply Z.log2_lt_pow2; lia.
  - destruct (Z.eq_dec b 0) as [->|Hnb]; [simpl; lia|].
    apply Z.log2_lt_pow2; lia.
Qed.

Lemma lor_representable (ty : CInt.ctype) (a b : Z) :
  16 <= CInt.bits ty ->
  0 <= a <= CInt.max_value ty -> 0 <= b <= CInt.max_value ty ->
  0 <= Z.lor a b <= CInt.max_value ty.
Proof.
  unfold CInt.max_value. intros Hw Ha Hb. destruct (CInt.signed ty).
  - pose proof (lor_below_pow2 a b (CInt.bits ty - 1)). lia.
  - pose proof (lor_below_pow2 a b (CInt.bits ty)). lia.
Qed.

(** The shifts that do not fit, at 32 bits. *)
Lemma RC_uint32_wraps : MatrixTransformAt.RC CInt.uint32 16777216 0 = Some 0.
Proof. reflexivity. Qed.

Lemma RC_int32_undefined :
  MatrixTransformAt.RC CInt.int32 8388608 0 = None.
Proof. reflexivity. Qed.

(** At 64 unsigned bits, the width of device-tree expressions, the same
    rows fit. *)
Lemma RC_uint64_fits :
  MatrixTransformAt.RC CInt.uint64 16777216 0 = Some 4294967296.
Proof. reflexivity. Qed.

(** ** Specification claims *)

(** C1. For every row in [0,255] and every column in [0,255], unpacking
    the packed value gives back the pair: [GET_ROW (RC row col) = row]
    and [GET_COL (RC row col) = col]. *)
Theorem RC_round_trip (row col : Z) :
  0 <= row <= 255 -> 0 <= col <= 255 ->
  MatrixTransform.GET_ROW (MatrixTransform.RC row col) = row
  /\ MatrixTransform.GET_COL (MatrixTransform.RC row col) = col.
Proof.
  intros _ Hc. split.
  - apply GET_ROW_RC_small. lia.
  - apply GET_COL_RC_small. lia.
Qed.

Lemma RC_round_trip_witness :
  (0 <= 255 <= 255 /\ 0 <= 254 <= 255)
  /\ MatrixTransform.GET_ROW (MatrixTransform.RC 255 254) = 255
  /\ MatrixTransform.GET_COL (MatrixTransform.RC 255 254) = 254.
Proof. split; [lia | apply (RC_round_trip 255 254); lia]. Defined.

(** C2, as the macro computes it.  For every non-negative row and
    column of the operand type such that [row * 2 ^ 8] is representable
    in it, [RC] returns exactly [(row << 8) | column], a value of the
    type: as the macro at that type, as the value of the expanded macro
    in any store (which it leaves as it was), and without masking the
    column (every bit set in the column is set in the result). *)
Theorem RC_is_shift_or (ty : CInt.ctype) (row col : Z) :
  16 <= CInt.bits ty ->
  0 <= row -> 0 <= col <= CInt.max_value ty ->
  row * 2 ^ 8 <= CInt.max_value ty ->
  MatrixTransformAt.RC ty row col = Some (Z.lor (Z.shiftl row 8) col)
  /\ Z.lor (Z.shiftl row 8) col = Z.lor (row * 2 ^ 8) col
  /\ 0 <= Z.lor (Z.shiftl row 8) col <= CInt.max_value ty
  /\ Expr.stateless
       (Expr.call MatrixTransformSyntax.RC [Expr.Num row; Expr.Num col])
       (Z.lor (Z.shiftl row 8) col)
  /\ (forall n, Z.testbit col n = true ->
                Z.testbit (Z.lor (Z.shiftl row 8) col) n = true).
Proof.
  intros Hw Hr Hc Hfit. change (2 ^ 8) with 256 in Hfit.
  split; [now apply RC_exact_when_fits|].
  split; [now rewrite Z.shiftl_mul_pow2 by lia|].
  split; [|split].
  - rewrite Z.shiftl_mul_pow2 by lia. change (2 ^ 8) with 256.
    apply lor_representable; lia.
  - apply RC_stateless.
  - intros n Hn. rewrite Z.lor_spec, Hn. apply orb_true_r.
Qed.

Lemma RC_is_shift_or_witness :
  (16 <= CInt.bits CInt.int32 /\ 0 <= 8388607
   /\ 0 <= 259 <= CInt.max_value CInt.int32
   /\ 8388607 * 2 ^ 8 <= CInt.max_value CInt.int32)
  /\ MatrixTransformAt.RC CInt.int32 8388607 259
     = Some (Z.lor (Z.shiftl 8388607 8) 259)
  /\ Z.lor (Z.shiftl 8388607 8) 259 = Z.lor (8388607 * 2 ^ 8) 259
  /\ 0 <= Z.lor (Z.shiftl 8388607 8) 259 <= CInt.max_value CInt.int32
  /\ Expr.stateless
       (Expr.call MatrixTransformSyntax.RC
          [Expr.Num 8388607; Expr.Num 259])
       (Z.lor (Z.shiftl 8388607 8) 259)
  /\ (forall n, Z.testbit 259 n = true ->
                Z.testbit (Z.lor (Z.shiftl 8388607 8) 259) n = true).
Proof.
  split; [cbv [CInt.bits CInt.max_value CInt.int32 CInt.signed]; lia|].
  apply (RC_is_shift_or CInt.int32 8388607 259);
    cbv [CInt.bits CInt.max_value CInt.int32 CInt.signed]; lia.
Defined.

(** Without the bound on the row the equation fails: at 32 unsigned
    bits row 16777216 is shifted out and the result is 0, not the
    integer [(16777216 << 8) | 0]. *)
Lemma RC_shift_drops_high_row_bits :
  MatrixTransformAt.RC CInt.uint32 16777216 0
  <> Some (Z.lor (Z.shiftl 16777216 8) 0).
Proof. discriminate. Qed.

(** C3. For non-negative [packed], [GET_ROW] returns exactly
    [packed >> 8] and [GET_COL] exactly [packed & 0xFF], as functions
    and as values of the expanded macros; these are the quotient and the
    remainder of [packed] by 256. *)
Theorem GET_ROW_GET_COL_are_shift_and_mask (packed : Z) :
  0 <= packed ->
  MatrixTransform.GET_ROW packed = Z.shiftr packed 8
  /\ MatrixTransform.GET_COL packed = Z.land packed 255
  /\ Expr.stateless
       (Expr.call MatrixTransformSyntax.GET_ROW [Expr.Num packed])
       (Z.shiftr packed 8)
  /\ Expr.stateless
       (Expr.call MatrixTransformSyntax.GET_COL [Expr.Num packed])
       (Z.land packed 255)
  /\ MatrixTransform.GET_ROW packed = packed / 256
  /\ MatrixTransform.GET_COL packed = packed mod 256.
Proof.
  intros _. split; [reflexivity|]. split; [reflexivity|].
  split; [|split; [|split]].
  - apply GET_ROW_stateless.
  - apply GET_COL_stateless.
  - apply GET_ROW_div.
  - apply GET_COL_mod.
Qed.

Lemma GET_ROW_GET_COL_are_shift_and_mask_witness :
  0 <= 515
  /\ MatrixTransform.GET_ROW 515 = Z.shiftr 515 8
  /\ MatrixTransform.GET_COL 515 = Z.land 515 255
  /\ Expr.stateless
       (Expr.call MatrixTransformSyntax.GET_ROW [Expr.Num 515])
       (Z.shiftr 515 8)
  /\ Expr.stateless
       (Expr.call MatrixTransformSyntax.GET_COL [Expr.Num 515])
       (Z.land 515 255)
  /\ MatrixTransform.GET_ROW 515 = 515 / 256
  /\ MatrixTransform.GET_COL 515 = 515 mod 256.
Proof.
  split; [lia | apply (GET_ROW_GET_COL_are_shift_and_mask 515); lia].
Defined.

(** C4, as the macros compute.  On every non-negative value of the
    operand type [GET_ROW] and [GET_COL] have a value, and so has [RC]
    when the type is unsigned (the shifted row wraps) or the shifted
    row fits; nothing checks the column: a column above 255 is or-ed
    into the row bits, so that for some row and some column above 255
    the decoded row differs from the one supplied. *)
Theorem codec_total_wide_column_corrupts
    (ty : CInt.ctype) (row col packed : Z) :
  16 <= CInt.bits ty ->
  0 <= row <= CInt.max_value ty -> 0 <= col <= CInt.max_value ty ->
  0 <= packed <= CInt.max_value ty ->
  MatrixTransformAt.GET_ROW ty packed = Some (packed / 256)
  /\ MatrixTransformAt.GET_COL ty packed = Some (packed mod 256)
  /\ 0 <= packed / 256 <= CInt.max_value ty
  /\ 0 <= packed mod 256 <= 255
  /\ (CInt.signed ty = false ->
      MatrixTransformAt.RC ty row col
      = Some (Z.lor ((row * 256) mod 2 ^ CInt.bits ty) col))
  /\ (row * 256 <= CInt.max_value ty ->
      MatrixTransformAt.RC ty row col = Some (Z.lor (row * 256) col))
  /\ (exists row' col' v r,
         0 <= row' <= CInt.max_value ty
         /\ 255 < col' <= CInt.max_value ty
         /\ MatrixTransformAt.RC ty row' col' = Some v
         /\ MatrixTransformAt.GET_ROW ty v = Some r
         /\ r <> row').
Proof.
  intros Hw Hr Hc Hp.
  split; [now rewrite GET_ROW_exact, GET_ROW_div|].
  split; [now rewrite GET_COL_exact, GET_COL_mod|].
  split; [|split; [|split; [|split]]].
  - split; [apply Z.div_pos; lia|].
    assert (packed / 256 <= packed)
      by (apply Z.div_le_upper_bound; lia).
    lia.
  - pose proof (Z.mod_pos_bound packed 256). lia.
  - intros Hu. unfold MatrixTransformAt.RC.
    now rewrite shl_8_unsigned.
  - intros Hfit. rewrite RC_exact_when_fits by lia.
    unfold MatrixTransform.RC. now rewrite Z.shiftl_mul_pow2 by lia.
  - pose proof (max_value_large ty Hw).
    exists 0, 256, 256, 1. split; [lia|]. split; [lia|].
    split; [now rewrite RC_exact_when_fits by lia|].
    split; [now rewrite GET_ROW_exact|lia].
Qed.

Lemma codec_total_wide_column_corrupts_witness :
  (16 <= CInt.bits CInt.uint32
   /\ 0 <= 16777216 <= CInt.max_value CInt.uint32
   /\ 0 <= 512 <= CInt.max_value CInt.uint32
   /\ 0 <= 70000 <= CInt.max_value CInt.uint32)
  /\ MatrixTransformAt.GET_ROW CInt.uint32 70000 = Some (70000 / 256)
  /\ MatrixTransformAt.GET_COL CInt.uint32 70000 = Some (70000 mod 256)
  /\ 0 <= 70000 / 256 <= CInt.max_value CInt.uint32
  /\ 0 <= 70000 mod 256 <= 255
  /\ (CInt.signed CInt.uint32 = false ->
      MatrixTransformAt.RC CInt.uint32 16777216 512
      = Some (Z.lor ((16777216 * 256) mod 2 ^ CInt.bits CInt.uint32) 512))
  /\ (16777216 * 256 <= CInt.max_value CInt.uint32 ->
      MatrixTransformAt.RC CInt.uint32 16777216 512
      = Some (Z.lor (16777216 * 256) 512))
  /\ (exists row' col' v r,
         0 <= row' <= CInt.max_value CInt.uint32
         /\ 255 < col' <= CInt.max_value CInt.uint32
         /\ MatrixTransformAt.RC CInt.uint32 row' col' = Some v
         /\ MatrixTransformAt.GET_ROW CInt.uint32 v = Some r
         /\ r <> row').
Proof.
  split; [cbv [CInt.bits CInt.max_value CInt.uint32 CInt.signed]; lia|].
  apply (codec_total_wide_column_corrupts CInt.uint32 16777216 512 70000);
    cbv [CInt.bits CInt.max_value CInt.uint32 CInt.signed]; lia.
Defined.

(** [RC] does not have a value on all non-negative inputs: at 32
    signed bits the shift of row 8388608 does not fit and is
    undefined. *)
Lemma RC_signed_overflow_has_no_value :
  ~ exists v, MatrixTransformAt.RC CInt.int32 8388608 0 = Some v.
Proof. intros [v Hv]. discriminate Hv. Qed.

(** C5, as the header has it.  The left-shift modifier constant
    [KC_LSHIFT] equals 225 (0xE1), the second of the eight modifier
    codes. *)
Theorem KC_LSHIFT_is_225 :
  Keys.KC_LSHIFT = 225 /\ lookup "KC_LSHIFT" Keys.defines = Some 225.
Proof. split; reflexivity. Qed.

(** The value 224 is not the left-shift constant. *)
Lemma KC_LSHIFT_is_not_224 : Keys.KC_LSHIFT <> 224.
Proof. discriminate. Qed.

(** It is the left-control constant, the first modifier code. *)
Lemma KC_LCTRL_is_224 :
  Keys.KC_LCTRL = 224 /\ lookup "KC_LCTRL" Keys.defines = Some 224.
Proof. split; reflexivity. Qed.

(** C6. The tables map each name to the literal of its directive, as
    listed here from the headers; [KC_A] is 4 and [MOMENTARY_LAYER] is
    1; every mouse code lies in [0x01, 0x0B] and every modifier code in
    [0xE0, 0xE7]; the hold-tap flavors are exactly 0, 1, 2, 3 and the
    layer behavior types exactly 0, 1, 2. *)
Theorem constant_tables_values_and_ranges :
  Keys.defines
  = [ ("KC_A", 0x04); ("KC_B", 0x05); ("KC_C", 0x06); ("KC_D", 0x07);
      ("KC_E", 0x08); ("KC_F", 0x09); ("KC_G", 0x0A); ("KC_H", 0x0B);
      ("KC_I", 0x0C); ("KC_J", 0x0D); ("KC_K", 0x0E); ("KC_L", 0x0F);
      ("KC_M", 0x10); ("KC_N", 0x11); ("KC_O", 0x12); ("KC_P", 0x13);
      ("KC_Q", 0x14); ("KC_R", 0x15); ("KC_S", 0x16); ("KC_T", 0x17);
      ("KC_U", 0x18); ("KC_V", 0x19); ("KC_W", 0x1A); ("KC_X", 0x1B);
      ("KC_Y", 0x1C); ("KC_Z", 0x1D); ("KC_LCTRL", 0xE0);
      ("KC_LSHIFT", 0xE1); ("KC_LALT", 0xE2); ("KC_LGUI", 0xE3);
      ("KC_RCTRL", 0xE4); ("KC_RSHIFT", 0xE5); ("KC_RALT", 0xE6);
      ("KC_RGUI", 0xE7); ("KC_F1", 0x3A); ("KC_F2", 0x3B); ("KC_F3", 0x3C);
      ("KC_F4", 0x3D); ("KC_F5", 0x3E); ("KC_F6", 0x3F); ("KC_F7", 0x40);
      ("KC_F8", 0x41); ("KC_F9", 0x42); ("KC_F10", 0x43); ("KC_F11", 0x44);
      ("KC_F12", 0x45); ("KC_ENTER", 0x28); ("KC_ESC", 0x29);
      ("KC_BSPC", 0x2A); ("KC_TAB", 0x2B); ("KC_SPC", 0x2C);
      ("KC_MINUS", 0x2D); ("KC_EQUAL", 0x2E); ("KC_LBKT", 0x2F);
      ("KC_RBKT", 0x30); ("KC_BSLASH", 0x31); ("KC_SEMI", 0x33);
      ("KC_QUOTE", 0x34); ("KC_GRAVE", 0x35); ("KC_COMMA", 0x36);
      ("KC_DOT", 0x37); ("KC_SLASH", 0x38); ("KC_CAPS", 0x39);
      ("KC_1", 0x1E); ("KC_2", 0x1F); ("KC_3", 0x20); ("KC_4", 0x21);
      ("KC_5", 0x22); ("KC_6", 0x23); ("KC_7", 0x24); ("KC_8", 0x25);
      ("KC_9", 0x26); ("KC_0", 0x27); ("KC_INSERT", 0x49);
      ("KC_HOME", 0x4A); ("KC_PGUP", 0x4B); ("KC_DELETE", 0x4C);
      ("KC_END", 0x4D); ("KC_PGDN", 0x4E); ("KC_RIGHT", 0x4F);
      ("KC_LEFT", 0x50); ("KC_DOWN", 0x51); ("KC_UP", 0x52) ]
  /\ Mouse.defines
     = [ ("LCLK", 0x01); ("RCLK", 0x02); ("MCLK", 0x03); ("MOVE_UP", 0x04);
         ("MOVE_DOWN", 0x05); ("MOVE_LEFT", 0x06); ("MOVE_RIGHT", 0x07);
         ("SCROLL_UP", 0x08); ("SCROLL_DOWN", 0x09); ("SCROLL_LEFT", 0x0A);
         ("SCROLL_RIGHT", 0x0B) ]
  /\ Behaviors.defines
     = [ ("HOLD_TAP_FLAVOR_HOLD_PREFERRED", 0);
         ("HOLD_TAP_FLAVOR_BALANCED", 1);
         ("HOLD_TAP_FLAVOR_TAP_PREFERRED", 2);
         ("HOLD_TAP_FLAVOR_TAP_UNLESS_INTERRUPTED", 3);
         ("TAPPING_TERM_MS", 200); ("QUICK_TAP_MS", 125);
         ("GLOBAL_QUICK_TAP_MS", 150); ("DEFAULT_LAYER", 0);
         ("MOMENTARY_LAYER", 1); ("TOGGLE_LAYER", 2) ]
  /\ map (fun n => lookup n Keys.defines) (names Keys.defines)
     = map Some (values Keys.defines)
  /\ map (fun n => lookup n Mouse.defines) (names Mouse.defines)
     = map Some (values Mouse.defines)
  /\ map (fun n => lookup n Behaviors.defines) (names Behaviors.defines)
     = map Some (values Behaviors.defines)
  /\ Keys.KC_A = 4 /\ lookup "KC_A" Keys.defines = Some 4
  /\ Behaviors.MOMENTARY_LAYER = 1
  /\ lookup "MOMENTARY_LAYER" Behaviors.defines = Some 1
  /\ values Mouse.defines = [1; 2; 3; 4; 5; 6; 7; 8; 9; 10; 11]
  /\ Forall (fun v => 0x01 <= v <= 0x0B) (values Mouse.defines)
  /\ values Keys.modifiers = [224; 225; 226; 227; 228; 229; 230; 231]
  /\ Forall (fun v => 0xE0 <= v <= 0xE7) (values Keys.modifiers)
  /\ values Behaviors.hold_tap_flavors = [0; 1; 2; 3]
  /\ values Behaviors.layer_behaviors = [0; 1; 2].
Proof.
  split; [reflexivity|]. split; [reflexivity|]. split; [reflexivity|].
  split; [reflexivity|]. split; [reflexivity|]. split; [reflexivity|].
  split; [reflexivity|]. split; [reflexivity|]. split; [reflexivity|].
  split; [reflexivity|]. split; [reflexivity|].
  split; [|split; [reflexivity|split; [|split; reflexivity]]].
  - apply Forall_forall. intros v Hin.
    destruct (proj1 (in_map_iff _ _ _) Hin) as [[name w] [<- Hin']].
    exact (proj1 (all_within_spec _ _ _) mouse_within name w Hin').
  - apply Forall_forall. intros v Hin.
    destruct (proj1 (in_map_iff _ _ _) Hin) as [[name w] [<- Hin']].
    exact (proj1 (all_within_spec _ _ _) modifiers_within name w Hin').
Qed.

(** C7. The example values: [RC 0 0 = 0], [RC 1 0 = 256],
    [RC 0 255 = 255] and [RC 2 3 = 515]. *)
Theorem RC_examples :
  MatrixTransform.RC 0 0 = 0
  /\ MatrixTransform.RC 1 0 = 256
  /\ MatrixTransform.RC 0 255 = 255
  /\ MatrixTransform.RC 2 3 = 515.
Proof. split; [|split; [|split]]; reflexivity. Qed.


(** C9. For every non-negative [packed], produced by [RC] or not,
    [GET_COL packed] is [packed & 0xFF] and lies in [0, 255]. *)
Theorem GET_COL_within_byte (packed : Z) :
  0 <= packed ->
  MatrixTransform.GET_COL packed = Z.land packed 0xFF
  /\ 0 <= MatrixTransform.GET_COL packed <= 255.
Proof. intros _. split; [reflexivity | apply GET_COL_bounds]. Qed.

Lemma GET_COL_within_byte_witness :
  0 <= 1000000
  /\ MatrixTransform.GET_COL 1000000 = Z.land 1000000 0xFF
  /\ 0 <= MatrixTransform.GET_COL 1000000 <= 255.
Proof. split; [lia | apply (GET_COL_within_byte 1000000); lia]. Defined.

(** C10, as the macros compute.  For non-negative row and column of
    the operand type, [RC row col] is [MATRIX_ROW row | MATRIX_COL col]
    (both without a value when the signed shift does not fit),
    [MATRIX_COL] is the identity, and [GET_ROW (MATRIX_ROW row) = row]
    whenever [row * 2 ^ 8] is representable in the type. *)
Theorem auxiliary_macros_compose (ty : CInt.ctype) (row col : Z) :
  16 <= CInt.bits ty ->
  0 <= row <= CInt.max_value ty -> 0 <= col <= CInt.max_value ty ->
  MatrixTransformAt.RC ty row col
  = match MatrixTransformAt.MATRIX_ROW ty row,
          MatrixTransformAt.MATRIX_COL ty col with
    | Some r, Some c => Some (Z.lor r c)
    | _, _ => None
    end
  /\ MatrixTransformAt.MATRIX_COL ty col = Some col
  /\ (row * 2 ^ 8 <= CInt.max_value ty ->
      and_then (MatrixTransformAt.MATRIX_ROW ty row)
        (MatrixTransformAt.GET_ROW ty)
      = Some row).
Proof.
  intros Hw Hr Hc. split; [|split; [reflexivity|]].
  - unfold MatrixTransformAt.RC, MatrixTransformAt.MATRIX_ROW,
      MatrixTransformAt.MATRIX_COL.
    now destruct (CInt.shl ty row 8).
  - change (2 ^ 8) with 256. intros Hfit.
    rewrite MATRIX_ROW_exact_when_fits by lia. simpl.
    rewrite GET_ROW_exact by assumption. f_equal.
    unfold MatrixTransform.GET_ROW, MatrixTransform.MATRIX_ROW.
    rewrite Z.shiftr_shiftl_l by lia.
    now rewrite Z.sub_diag, Z.shiftl_0_r.
Qed.

Lemma auxiliary_macros_compose_witness :
  (16 <= CInt.bits CInt.uint32
   /\ 0 <= 300 <= CInt.max_value CInt.uint32
   /\ 0 <= 7 <= CInt.max_value CInt.uint32)
  /\ MatrixTransformAt.RC CInt.uint32 300 7
     = match MatrixTransformAt.MATRIX_ROW CInt.uint32 300,
             MatrixTransformAt.MATRIX_COL CInt.uint32 7 with
       | Some r, Some c => Some (Z.lor r c)
       | _, _ => None
       end
  /\ MatrixTransformAt.MATRIX_COL CInt.uint32 7 = Some 7
  /\ (300 * 2 ^ 8 <= CInt.max_value CInt.uint32 ->
      and_then (MatrixTransformAt.MATRIX_ROW CInt.uint32 300)
        (MatrixTransformAt.GET_ROW CInt.uint32)
      = Some 300).
Proof.
  split; [cbv [CInt.bits CInt.max_value CInt.uint32 CInt.signed]; lia|].
  apply (auxiliary_macros_compose CInt.uint32 300 7);
    cbv [CInt.bits CInt.max_value CInt.uint32 CInt.signed]; lia.
Defined.

(** Without the bound on the row the last equation fails: at 32
    unsigned bits [MATRIX_ROW 16777216] is 0 and [GET_ROW] of it is 0. *)
Lemma GET_ROW_MATRIX_ROW_loses_high_row :
  and_then (MatrixTransformAt.MATRIX_ROW CInt.uint32 16777216)
    (MatrixTransformAt.GET_ROW CInt.uint32)
  <> Some 16777216.
Proof. discriminate. Qed.

(** ** Further properties of the codec *)

(** X1. When the shifted row fits the operand type, unpacking a packed
    position gives the row and the column back exactly when the column
    lies in [0, 255]. *)
Theorem round_trip_iff_column_fits (ty : CInt.ctype) (row col : Z) :
  16 <= CInt.bits ty ->
  0 <= row -> row * 2 ^ 8 <= CInt.max_value ty ->
  0 <= col <= CInt.max_value ty ->
  (and_then (MatrixTransformAt.RC ty row col) (MatrixTransformAt.GET_ROW ty)
   = Some row
   /\ and_then (MatrixTransformAt.RC ty row col)
        (MatrixTransformAt.GET_COL ty)
      = Some col)
  <-> col <= 255.
Proof.
  intros Hw Hr Hfit Hc. change (2 ^ 8) with 256 in Hfit.
  rewrite RC_exact_when_fits by assumption. simpl and_then.
  rewrite GET_ROW_exact, GET_COL_exact by assumption. split.
  - intros [_ [= Hcol]]. rewrite GET_COL_RC in Hcol.
    pose proof (Z.mod_pos_bound col 256). lia.
  - intros Hsmall. split; f_equal.
    + apply GET_ROW_RC_small. lia.
    + apply GET_COL_RC_small. lia.
Qed.

Lemma round_trip_iff_column_fits_witness :
  (16 <= CInt.bits CInt.int32 /\ 0 <= 8388607
   /\ 8388607 * 2 ^ 8 <= CInt.max_value CInt.int32
   /\ 0 <= 256 <= CInt.max_value CInt.int32)
  /\ ((and_then (MatrixTransformAt.RC CInt.int32 8388607 256)
         (MatrixTransformAt.GET_ROW CInt.int32)
       = Some 8388607
       /\ and_then (MatrixTransformAt.RC CInt.int32 8388607 256)
            (MatrixTransformAt.GET_COL CInt.int32)
          = Some 256)
      <-> 256 <= 255).
Proof.
  split; [cbv [CInt.bits CInt.max_value CInt.int32 CInt.signed]; lia|].
  apply (round_trip_iff_column_fits CInt.int32 8388607 256);
    cbv [CInt.bits CInt.max_value CInt.int32 CInt.signed]; lia.
Defined.

(** X2. When the shifted row fits the operand type and the column lies
    in [0, 255], [packed] is the index of [(row, col)] if and only if
    [GET_ROW] and [GET_COL] return [row] and [col] on it: unpacking is
    the inverse of packing. *)
Theorem RC_inverse (ty : CInt.ctype) (row col packed : Z) :
  16 <= CInt.bits ty ->
  0 <= row -> row * 2 ^ 8 <= CInt.max_value ty -> 0 <= col <= 255 ->
  MatrixTransformAt.RC ty row col = Some packed
  <-> MatrixTransformAt.GET_ROW ty packed = Some row
      /\ MatrixTransformAt.GET_COL ty packed = Some col.
Proof.
  intros Hw Hr Hfit Hc. change (2 ^ 8) with 256 in Hfit.
  rewrite RC_exact_when_fits, GET_ROW_exact, GET_COL_exact by assumption.
  split.
  - intros [= <-]. split; f_equal.
    + apply GET_ROW_RC_small. lia.
    + apply GET_COL_RC_small. lia.
  - intros [[= <-] [= <-]]. f_equal. apply RC_GET.
Qed.

Lemma RC_inverse_witness :
  (16 <= CInt.bits CInt.uint32 /\ 0 <= 300
   /\ 300 * 2 ^ 8 <= CInt.max_value CInt.uint32 /\ 0 <= 7 <= 255)
  /\ (MatrixTransformAt.RC CInt.uint32 300 7 = Some 76807
      <-> MatrixTransformAt.GET_ROW CInt.uint32 76807 = Some 300
          /\ MatrixTransformAt.GET_COL CInt.uint32 76807 = Some 7).
Proof.
  split; [cbv [CInt.bits CInt.max_value CInt.uint32 CInt.signed]; lia|].
  apply (RC_inverse CInt.uint32 300 7 76807);
    cbv [CInt.bits CInt.max_value CInt.uint32 CInt.signed]; lia.
Defined.

(** X3. When both shifted rows fit the operand type and both columns
    lie in [0, 255], the two packed indices are ordered row by row: one
    is below the other exactly when its row is smaller, or the rows are
    equal and its column is smaller. *)
Theorem RC_row_major (ty : CInt.ctype) (row col row' col' : Z) :
  16 <= CInt.bits ty ->
  0 <= row -> row * 2 ^ 8 <= CInt.max_value ty ->
  0 <= row' -> row' * 2 ^ 8 <= CInt.max_value ty ->
  0 <= col <= 255 -> 0 <= col' <= 255 ->
  exists p p',
    MatrixTransformAt.RC ty row col = Some p
    /\ MatrixTransformAt.RC ty row' col' = Some p'
    /\ (p < p' <-> row < row' \/ (row = row' /\ col < col')).
Proof.
  intros Hw Hr Hfit Hr' Hfit' Hc Hc'. change (2 ^ 8) with 256 in *.
  exists (MatrixTransform.RC row col), (MatrixTransform.RC row' col').
  split; [now apply RC_exact_when_fits|].
  split; [now apply RC_exact_when_fits|].
  rewrite !RC_add by lia. lia.
Qed.

Lemma RC_row_major_witness :
  (16 <= CInt.bits CInt.int32
   /\ 0 <= 1 /\ 1 * 2 ^ 8 <= CInt.max_value CInt.int32
   /\ 0 <= 2 /\ 2 * 2 ^ 8 <= CInt.max_value CInt.int32
   /\ 0 <= 255 <= 255 /\ 0 <= 0 <= 255)
  /\ exists p p',
       MatrixTransformAt.RC CInt.int32 1 255 = Some p
       /\ MatrixTransformAt.RC CInt.int32 2 0 = Some p'
       /\ (p < p' <-> 1 < 2 \/ (1 = 2 /\ 255 < 0)).
Proof.
  split; [cbv [CInt.bits CInt.max_value CInt.int32 CInt.signed]; lia|].
  apply (RC_row_major CInt.int32 1 255 2 0);
    cbv [CInt.bits CInt.max_value CInt.int32 CInt.signed]; lia.
Defined.

(** X4. The positions with row and column in [0, 255] pack onto the
    16-bit range: an integer lies in [0, 65535] exactly when it is the
    index of such a position. *)
Theorem RC_onto_16_bits (packed : Z) :
  0 <= packed <= 65535
  <-> exists row col,
        0 <= row <= 255 /\ 0 <= col <= 255
        /\ MatrixTransform.RC row col = packed.
Proof.
  split.
  - intros Hp.
    exists (MatrixTransform.GET_ROW packed), (MatrixTransform.GET_COL packed).
    split; [|split; [apply GET_COL_bounds | apply RC_GET]].
    rewrite GET_ROW_div. split.
    + apply Z.div_pos; lia.
    + assert (packed / 256 < 256)
        by (apply Z.div_lt_upper_bound; lia). lia.
  - intros [row [col [Hr [Hc <-]]]]. now apply RC_bounds.
Qed.

(** X5. A column outside [0, 255] is not rejected: the index it gives is
    the index of another position, whose column is the low byte of the
    given one and whose row has the remaining bits of the column or-ed
    in. *)
Theorem wide_column_aliases (row col : Z) :
  MatrixTransform.RC row col
  = MatrixTransform.RC (Z.lor row (Z.shiftr col 8)) (col mod 256)
  /\ 0 <= col mod 256 <= 255.
Proof.
  split.
  - rewrite <- (GET_ROW_RC row col), <- (GET_COL_RC row col).
    symmetry. apply RC_GET.
  - pose proof (Z.mod_pos_bound col 256). lia.
Qed.

(** X6. With a column in [0, 255] the two halves can be added instead of
    or-ed, a row-only index has column 0, and a column-only index has
    row 0 and that column. *)
Theorem MATRIX_ROW_MATRIX_COL_halves (row col : Z) :
  0 <= col <= 255 ->
  MatrixTransform.RC row col
  = MatrixTransform.MATRIX_ROW row + MatrixTransform.MATRIX_COL col
  /\ MatrixTransform.GET_COL (MatrixTransform.MATRIX_ROW row) = 0
  /\ MatrixTransform.GET_ROW (MatrixTransform.MATRIX_COL col) = 0
  /\ MatrixTransform.GET_COL (MatrixTransform.MATRIX_COL col) = col.
Proof.
  intros Hc. unfold MatrixTransform.MATRIX_ROW, MatrixTransform.MATRIX_COL.
  split; [|split; [|split]].
  - rewrite RC_add, Z.shiftl_mul_pow2 by lia. reflexivity.
  - rewrite GET_COL_mod, Z.shiftl_mul_pow2 by lia. apply Z.mod_mul. lia.
  - rewrite GET_ROW_div. apply Z.div_small. lia.
  - rewrite GET_COL_mod. apply Z.mod_small. lia.
Qed.

Lemma MATRIX_ROW_MATRIX_COL_halves_witness :
  0 <= 255 <= 255
  /\ MatrixTransform.RC 3 255
     = MatrixTransform.MATRIX_ROW 3 + MatrixTransform.MATRIX_COL 255
  /\ MatrixTransform.GET_COL (MatrixTransform.MATRIX_ROW 3) = 0
  /\ MatrixTransform.GET_ROW (MatrixTransform.MATRIX_COL 255) = 0
  /\ MatrixTransform.GET_COL (MatrixTransform.MATRIX_COL 255) = 255.
Proof.
  split; [lia | apply (MATRIX_ROW_MATRIX_COL_halves 3 255); lia].
Defined.

(** ** Further properties of the macros as replacement texts *)

(** The accesses of an expansion are those of the arguments, taken at
    the places where the replacement text mentions the parameters. *)
Lemma accesses_subst (ps : list string)
    (bound : list (string * Expr.expr)) (e : Expr.expr) :
  Expr.template ps e = true ->
  Expr.accesses (Expr.subst bound e)
  = flat_map
      (fun p => match Expr.argument p bound with
                | Some a => Expr.accesses a
                | None => []
                end)
      (Expr.occurrences e).
Proof.
  induction e as [n|p|x|x e IH|e IH|a IHa b IHb|a IHa b IHb
                 |a IHa b IHb|a IHa b IHb];
    simpl; intros Ht; try discriminate Ht; try reflexivity;
    try (apply andb_true_iff in Ht as [Hta Htb];
         now rewrite flat_map_app, IHa, IHb).
  - destruct (Expr.argument p bound); [now rewrite app_nil_r | reflexivity].
  - now apply IH.
Qed.

Lemma argument_combine (ps : list string) (args : list Expr.expr) :
  NoDup ps -> List.length ps = List.length args ->
  map (fun p => Expr.argument p (combine ps args)) ps = map Some args.
Proof.
  revert args. induction ps as [|q ps IH]; intros [|a args] Hnd Hlen;
    simpl in *; try discriminate; [reflexivity|].
  inversion Hnd as [|? ? Hnotin Hnd']; subst.
  rewrite String.eqb_refl. f_equal.
  rewrite <- (IH args Hnd') by now injection Hlen.
  apply map_ext_in. intros p Hp.
  destruct (String.eqb_spec p q) as [->|_]; [contradiction|reflexivity].
Qed.

(** A replacement text that mentions each parameter once, in the order
    of the parameter list, and names no object of its own hands the
    accesses of the arguments through unchanged. *)
Lemma linear_template_accesses (m : Expr.macro)
    (args : list Expr.expr) (e : Expr.expr) :
  Expr.template (Expr.params m) (Expr.body m) = true ->
  Expr.occurrences (Expr.body m) = Expr.params m ->
  NoDup (Expr.params m) ->
  Expr.expand m args = Some e ->
  Expr.accesses e = flat_map Expr.accesses args.
Proof.
  intros Ht Hocc Hnd. unfold Expr.expand.
  destruct (Nat.eqb_spec (List.length (Expr.params m)) (List.length args))
    as [Hlen|_]; [|discriminate].
  intros [= <-].
  rewrite (accesses_subst (Expr.params m)) by assumption.
  rewrite Hocc, !flat_map_concat_map. f_equal.
  rewrite <- (map_map (fun p => Expr.argument p
                                  (combine (Expr.params m) args))
                      (fun o => match o with
                                | Some a => Expr.accesses a
                                | None => []
                                end)).
  rewrite argument_combine by assumption. now rewrite map_map.
Qed.

(** X7. No replacement text duplicates, drops or reorders an argument:
    the expansion of an invocation of any of the five macros reads and
    assigns exactly the objects its arguments read and assign, as
    often and in the same order of the text.  An argument with a side
    effect therefore occurs once in what is evaluated. *)
Theorem expansion_keeps_argument_accesses
    (m : Expr.macro) (args : list Expr.expr) (e : Expr.expr) :
  In m [ MatrixTransformSyntax.RC; MatrixTransformSyntax.MATRIX_ROW;
         MatrixTransformSyntax.MATRIX_COL; MatrixTransformSyntax.GET_ROW;
         MatrixTransformSyntax.GET_COL ] ->
  Expr.expand m args = Some e ->
  Expr.accesses e = flat_map Expr.accesses args.
Proof.
  intros Hm. apply linear_template_accesses.
  - exact (proj1 (Forall_forall _ _) matrix_transform_templates m Hm).
  - destruct Hm as [<-|[<-|[<-|[<-|[<-|[]]]]]]; reflexivity.
  - destruct Hm as [<-|[<-|[<-|[<-|[<-|[]]]]]];
      apply distinct_by_nodup; reflexivity.
Qed.

(** [RC(i = i << 1 | 1, j)]: one read and one assignment of [i], then
    one read of [j]. *)
Lemma expansion_keeps_argument_accesses_witness :
  (In MatrixTransformSyntax.RC
      [ MatrixTransformSyntax.RC; MatrixTransformSyntax.MATRIX_ROW;
        MatrixTransformSyntax.MATRIX_COL; MatrixTransformSyntax.GET_ROW;
        MatrixTransformSyntax.GET_COL ]
   /\ Expr.expand MatrixTransformSyntax.RC
        [Examples.shift_in_one; Expr.Var "j"]
      = Some (Expr.Paren
                (Expr.BitOr
                   (Expr.Shl (Expr.Paren Examples.shift_in_one)
                      (Expr.Num 8))
                   (Expr.Paren (Expr.Var "j")))))
  /\ Expr.accesses
       (Expr.Paren
          (Expr.BitOr
             (Expr.Shl (Expr.Paren Examples.shift_in_one) (Expr.Num 8))
             (Expr.Paren (Expr.Var "j"))))
     = flat_map Expr.accesses [Examples.shift_in_one; Expr.Var "j"].
Proof.
  split; [split; [left; reflexivity | reflexivity]|].
  apply (expansion_keeps_argument_accesses MatrixTransformSyntax.RC
           [Examples.shift_in_one; Expr.Var "j"]);
    [left; reflexivity | reflexivity].
Defined.

(** X8. Invoked on integer constant expressions (literals or shifts,
    ands and ors of them), each of the five macros behaves the same in
    every store and changes none: it has the same value in any two
    stores, or a value in neither. *)
Theorem constant_arguments_store_independent
    (m : Expr.macro) (args : list Expr.expr) :
  In m [ MatrixTransformSyntax.RC; MatrixTransformSyntax.MATRIX_ROW;
         MatrixTransformSyntax.MATRIX_COL; MatrixTransformSyntax.GET_ROW;
         MatrixTransformSyntax.GET_COL ] ->
  Forall (fun a => Expr.constant a = true) args ->
  Expr.store_independent (Expr.call m args).
Proof.
  intros Hm Hargs. apply call_store_independent; [|assumption].
  exact (proj1 (Forall_forall _ _) matrix_transform_templates m Hm).
Qed.

Lemma constant_arguments_store_independent_witness :
  (In MatrixTransformSyntax.RC
      [ MatrixTransformSyntax.RC; MatrixTransformSyntax.MATRIX_ROW;
        MatrixTransformSyntax.MATRIX_COL; MatrixTransformSyntax.GET_ROW;
        MatrixTransformSyntax.GET_COL ]
   /\ Forall (fun a => Expr.constant a = true) Examples.constant_arguments)
  /\ Expr.store_independent
       (Expr.call MatrixTransformSyntax.RC Examples.constant_arguments).
Proof.
  split; [split; [left; reflexivity | repeat constructor]|].
  apply (constant_arguments_store_independent
           MatrixTransformSyntax.RC Examples.constant_arguments);
    [left; reflexivity | repeat constructor].
Defined.

(** X9. Invocations nest: the text of [RC] applied to two literals in
    [0, 255] is itself an argument for [GET_ROW] and [GET_COL], which
    return the row and the column on it in every store and leave the
    store as it was. *)
Theorem nested_invocation_round_trip (row col : Z) (s : Expr.store) :
  0 <= row <= 255 -> 0 <= col <= 255 ->
  exists e,
    Expr.expand MatrixTransformSyntax.RC [Expr.Num row; Expr.Num col]
    = Some e
    /\ Expr.call MatrixTransformSyntax.GET_ROW [e] s = Some (row, s)
    /\ Expr.call MatrixTransformSyntax.GET_COL [e] s = Some (col, s).
Proof.
  intros Hr Hc.
  pose proof (RC_stateless row col s) as Hcall.
  unfold Expr.call in Hcall.
  destruct (Expr.expand MatrixTransformSyntax.RC
              [Expr.Num row; Expr.Num col]) as [e|] eqn:He;
    [|discriminate Hcall].
  exists e. split; [reflexivity|]. split.
  - rewrite (call_GET_ROW e _ s s Hcall).
    now rewrite GET_ROW_RC_small by lia.
  - rewrite (call_GET_COL e _ s s Hcall).
    now rewrite GET_COL_RC_small by lia.
Qed.

Lemma nested_invocation_round_trip_witness :
  (0 <= 2 <= 255 /\ 0 <= 3 <= 255)
  /\ exists e,
       Expr.expand MatrixTransformSyntax.RC [Expr.Num 2; Expr.Num 3]
       = Some e
       /\ Expr.call MatrixTransformSyntax.GET_ROW [e] Examples.no_objects
          = Some (2, Examples.no_objects)
       /\ Expr.call MatrixTransformSyntax.GET_COL [e] Examples.no_objects
          = Some (3, Examples.no_objects).
Proof.
  split; [lia|].
  apply (nested_invocation_round_trip 2 3 Examples.no_objects); lia.
Defined.

(** ** Further properties of the constant tables *)

Lemma values_injective (t : table) (n1 n2 : string) (v : Z) :
  NoDup (values t) -> In (n1, v) t -> In (n2, v) t -> n1 = n2.
Proof.
  unfold values. induction t as [|[n w] t IH]; simpl; [contradiction|].
  intros Hnd H1 H2. inversion Hnd as [|? ? Hnotin Hnd']; subst.
  assert (Hsame : forall m, In (m, w) t -> False).
  { intros m Hm. apply Hnotin. change w with (snd (m, w)).
    now apply in_map. }
  destruct H1 as [H1|H1], H2 as [H2|H2].
  - congruence.
  - exfalso. apply (Hsame n2). congruence.
  - exfalso. apply (Hsame n1). congruence.
  - now apply IH.
Qed.

Lemma distinct_values_by_nodup (l : list Z) :
  nodup Z.eq_dec l = l -> NoDup l.
Proof. intros <-. apply NoDup_nodup. Qed.

(** X10. Across the three converter headers no name is defined by two
    directives: every directive that keys.h, mouse.h or behaviors.h
    makes is found under its name, with its own value, when the three
    are taken together.  Only identifiers are defined: the nine
    directives of behaviors.h whose name starts with [&] define
    nothing. *)
Theorem converter_headers_do_not_clash (name : string) (v : Z) :
  In (name, v) Keys.defines \/ In (name, v) Mouse.defines
    \/ In (name, v) Behaviors.defines ->
  NoDup (names converter_headers)
  /\ lookup name converter_headers = Some v
  /\ is_identifier name = true
  /\ Forall (fun n => lookup n converter_headers = None)
       (names Behaviors.basic).
Proof.
  intros Hin.
  assert (Hnd : NoDup (names converter_headers))
    by (apply distinct_by_nodup; vm_compute; reflexivity).
  assert (Hall : In (name, v) converter_headers)
    by (unfold converter_headers; rewrite !in_app_iff; exact Hin).
  split; [exact Hnd|]. split; [now apply In_lookup|]. split.
  - assert (Hids : forallb (fun d => is_identifier (fst d))
                     converter_headers = true) by reflexivity.
    exact (proj1 (forallb_forall _ _) Hids (name, v) Hall).
  - repeat constructor.
Qed.

Lemma converter_headers_do_not_clash_witness :
  (In ("MOVE_UP", 4) Keys.defines \/ In ("MOVE_UP", 4) Mouse.defines
     \/ In ("MOVE_UP", 4) Behaviors.defines)
  /\ NoDup (names converter_headers)
  /\ lookup "MOVE_UP" converter_headers = Some 4
  /\ is_identifier "MOVE_UP" = true
  /\ Forall (fun n => lookup n converter_headers = None)
       (names Behaviors.basic).
Proof.
  assert (Hin : In ("MOVE_UP", 4) Mouse.defines)
    by (right; right; right; left; reflexivity).
  split; [right; left; exact Hin|].
  apply (converter_headers_do_not_clash "MOVE_UP" 4).
  right; left; exact Hin.
Defined.

(** X11. Within keys.h, within mouse.h and within the basic behaviors of
    behaviors.h a code belongs to one name only: two names defined to
    the same value are the same name. *)
Theorem code_identifies_name (t : table) (n1 n2 : string) (v : Z) :
  In t [Keys.defines; Mouse.defines; Behaviors.basic] ->
  lookup n1 t = Some v -> lookup n2 t = Some v -> n1 = n2.
Proof.
  intros Ht H1 H2.
  apply (values_injective t n1 n2 v); try now apply lookup_In.
  destruct Ht as [<-|[<-|[<-|[]]]];
    apply distinct_values_by_nodup; vm_compute; reflexivity.
Qed.

Lemma code_identifies_name_witness :
  (In Keys.defines [Keys.defines; Mouse.defines; Behaviors.basic]
   /\ lookup "KC_LSHIFT" Keys.defines = Some 225
   /\ lookup "KC_LSHIFT" Keys.defines = Some 225)
  /\ "KC_LSHIFT" = "KC_LSHIFT".
Proof.
  split; [split; [left; reflexivity | split; reflexivity]|].
  apply (code_identifies_name Keys.defines "KC_LSHIFT" "KC_LSHIFT" 225);
    [left; reflexivity | reflexivity | reflexivity].
Defined.

(** Across headers codes are shared: 4 is [KC_A] and [MOVE_UP]. *)
Lemma codes_shared_across_headers :
  lookup "KC_A" Keys.defines = lookup "MOVE_UP" Mouse.defines.
Proof. reflexivity. Qed.

(** X12. In source order the codes of each block of keys.h and of
    mouse.h are consecutive: letters from 0x04, number row from 0x1E,
    other keys from 0x28 to 0x31 and from 0x33 (0x32 is not defined),
    function keys from 0x3A, navigation from 0x49, modifiers from 0xE0,
    mouse codes from 0x01. *)
Theorem codes_are_consecutive :
  values Keys.letters = map Z.of_nat (seq 4 26)
  /\ values Keys.number_row = map Z.of_nat (seq 30 10)
  /\ values Keys.other_keys = map Z.of_nat (seq 40 10 ++ seq 51 7)
  /\ values Keys.function_keys = map Z.of_nat (seq 58 12)
  /\ values Keys.navigation = map Z.of_nat (seq 73 10)
  /\ values Keys.modifiers = map Z.of_nat (seq 224 8)
  /\ values Mouse.defines = map Z.of_nat (seq 1 11).
Proof.
  split; [reflexivity|]. split; [reflexivity|]. split; [reflexivity|].
  split; [reflexivity|]. split; [reflexivity|].
  split; reflexivity.
Qed.

(** ** Further properties of the fixture header *)

(** X13. Rescanning needs two steps at most: with any fuel of 2 or more
    a name resolves to the value [value_of] gives it. *)
Theorem resolve_two_steps_suffice (fuel : nat) (name : string) :
  (2 <= fuel)%nat -> Fixture.resolve fuel name = Fixture.value_of name.
Proof.
  intros Hfuel. destruct fuel as [|[|fuel]]; [lia | lia |].
  unfold Fixture.value_of. simpl.
  repeat (destruct (String.eqb name _); [reflexivity|]).
  reflexivity.
Qed.

Lemma resolve_two_steps_suffice_witness :
  (2 <= 2)%nat /\ Fixture.resolve 2 "A" = Fixture.value_of "A".
Proof. split; [lia | apply (resolve_two_steps_suffice 2 "A"); lia]. Defined.

(** X14. The fixture agrees with the converter's keys.h on its six
    letters: the short name and the [KP_] name both resolve, to the code
    keys.h gives the [KC_] name. *)
Theorem fixture_agrees_with_keys :
  Forall
    (fun l =>
       Fixture.value_of l <> None
       /\ Fixture.value_of l = lookup (String.append "KC_" l) Keys.defines
       /\ Fixture.value_of (String.append "KP_" l)
          = lookup (String.append "KC_" l) Keys.defines)
    ["A"; "B"; "C"; "D"; "E"; "F"].
Proof.
  repeat constructor; discriminate.
Qed.

(** X15. In the fixture header exactly twelve names have a value: the
    short names [A] to [F] and the names [KP_A] to [KP_F], with the
    codes 0x04 to 0x09.  Every other name has none, and so has the
    include guard [ZMK_KEYS_H], which is defined with an empty
    replacement. *)
Theorem fixture_values :
  (forall name : string,
      Fixture.value_of name
      = lookup name
          [ ("A", 0x04); ("B", 0x05); ("C", 0x06); ("D", 0x07);
            ("E", 0x08); ("F", 0x09);
            ("KP_A", 0x04); ("KP_B", 0x05); ("KP_C", 0x06);
            ("KP_D", 0x07); ("KP_E", 0x08); ("KP_F", 0x09) ])
  /\ Fixture.replacement_of "ZMK_KEYS_H" Fixture.defines
     = Some Fixture.Empty
  /\ Fixture.value_of "ZMK_KEYS_H" = None.
Proof.
  split; [|split; reflexivity].
  intros name. unfold Fixture.value_of. simpl.
  destruct (String.eqb_spec name "ZMK_KEYS_H") as [->|_]; [reflexivity|].
  repeat (destruct (String.eqb name _); [reflexivity|]).
  reflexivity.
Qed.
